(** * Video ingestion and frame-sampling pipeline (utils/frameExtractor.js)

    A shallow embedding of the consolidated [extractFrames] pipeline and of
    its helpers [downloadDirect], [resolveTikTokUrl] and [downloadWithYtDlp].
    Line numbers refer to [unnamed/part_002], which holds the successive
    variants of the file; the consolidated one is at lines 475-751.

    - JavaScript numbers are modelled by exact rationals ([Q]) where they
      are durations, and by integers ([Z], [N]) where they are floored
      timestamps, HTTP statuses or clock readings.
    - The local file system is a finite map from paths to file contents.
    - The network, the clock and the external programs (yt-dlp, ffprobe,
      ffmpeg) are fields of an environment record [Env]; the pipeline is
      written in a small state-and-exception monad over a [World]. *)

From Stdlib Require Import Strings.Ascii Strings.String Strings.Byte QArith Qround Qminmax Lqa.
From stdpp Require Import base decidable option list sorting numbers strings pretty gmap.

Local Open Scope string_scope.
Local Open Scope Z_scope.

(** ** JavaScript numbers *)

Module JS.

(** [a < b] on numbers. *)
Definition lt (a b : Q) : bool :=
  match Qcompare a b with Lt => true | _ => false end.

(** [Math.floor]. *)
Definition floor (x : Q) : Z := Qfloor x.

(** [Math.min] on two numbers. *)
Definition min (a b : Q) : Q := Qmin a b.

(** Truthiness of a number that is not [NaN]: everything but zero. *)
Definition truthy_num (x : Q) : bool := negb (Qeq_bool x 0).

(** [new Set(array)]: values are inserted one by one, a value already
    present is not inserted again, and iteration follows insertion order. *)
Definition Set_add (s : list Z) (x : Z) : list Z :=
  if decide (x ∈ s) then s else (s ++ [x])%list.

Definition Set_of (l : list Z) : list Z := foldl Set_add [] l.

(** [array.slice(0, n)]. *)
Definition slice0 {A} (n : nat) (l : list A) : list A := take n l.

End JS.

(** ** The Sampler (lines 657-668 of the consolidated pipeline)

    [times] is the multiplication of JavaScript numbers; the pipeline uses
    it at the exact product of rationals. *)

Section Sampler.
Variable times : Q -> Q -> Q.

(** The five candidate points, before flooring. *)
Definition candidates (duration : Q) : list Q :=
  [ 0%Q;
    JS.min 2 (times duration 0.1);
    times duration 0.25;
    times duration 0.5;
    times duration 0.9 ].

Definition sampleWith (duration : Q) : list Z :=
  let timestamps := map JS.floor (candidates duration) in
  JS.slice0 5 (filter (λ t, JS.lt (inject_Z t) duration = true) (JS.Set_of timestamps)).
End Sampler.

Definition defaultTimestamps (duration : Q) : list Z := sampleWith Qmult duration.

(** [let timestamps = manualTimestamps; if (!timestamps) { ... }]: an array,
    even an empty one, is truthy; [None] stands for [null] / [undefined]. *)
Definition chooseTimestamps (duration : Q) (manualTimestamps : option (list Z)) : list Z :=
  match manualTimestamps with
  | Some timestamps => timestamps
  | None => defaultTimestamps duration
  end.

(** ** Strings and paths *)

(** [s.includes(needle)]. *)
Fixpoint includes (needle s : string) : bool :=
  if String.prefix needle s then true
  else match s with
       | EmptyString => false
       | String _ rest => includes needle rest
       end.

(** [s.split(sep)[0]] for a one-character separator: the part of [s] before
    the first occurrence of [sep], all of [s] when there is none. *)
Fixpoint split_first (sep : ascii) (s : string) : string :=
  match s with
  | EmptyString => EmptyString
  | String c rest => if Ascii.eqb c sep then EmptyString else String c (split_first sep rest)
  end.

(** Truthiness of a value that is a string or [undefined]. *)
Definition truthy (v : option string) : bool :=
  match v with
  | Some s => negb (String.eqb s "")
  | None => false
  end.

(** [a || b]. *)
Definition js_or (a b : option string) : option string :=
  if truthy a then a else b.

(** [path.join(dir, name)] for a normalised directory and a plain file name. *)
Definition path_join (dir name : string) : string := dir +:+ "/" +:+ name.

(** The template literals of the pipeline. Integers print in decimal, as
    JavaScript prints integral numbers below 10^21. *)
Definition videoPath_of (tempDir : string) (videoId : N) : string :=
  path_join tempDir ("socially_video_" +:+ pretty videoId +:+ ".mp4").

Definition frameFilename_of (videoId : N) (timestamp : Z) : string :=
  "frame_" +:+ pretty videoId +:+ "_" +:+ pretty timestamp +:+ ".jpg".

Definition framePath_of (tempDir : string) (videoId : N) (timestamp : Z) : string :=
  path_join tempDir (frameFilename_of videoId timestamp).

Definition audioPath_of (tempDir : string) (videoId : N) : string :=
  path_join tempDir ("audio_" +:+ pretty videoId +:+ ".mp3").

(** ** Errors, events and the world *)

(** The [Error] values the pipeline throws, one constructor per message or
    per foreign source. *)
Inductive Error :=
| AxiosPostError (msg : string)      (* the resolution request was rejected *)
| AxiosGetError (msg : string)       (* the download request was rejected *)
| DownloadFailedHttp (status : Z)    (* Download failed: HTTP <status> *)
| StreamError (msg : string)         (* 'error' of the writer or of the body stream *)
| DownloadTooSmall (size : nat)      (* Downloaded file is too small (<size> bytes) *)
| TikwmFailed                        (* tikwm API failed to resolve TikTok video URL. *)
| YtDlpNotAvailable                  (* yt-dlp not available on this server. *)
| YtDlpFailed (msg : string)         (* yt-dlp failed: <msg> *)
| VideoNotCreated                    (* Video download failed - file not created. *)
| FfprobeError (msg : string)
| NoSamples                          (* Failed to extract any DNA samples. *)
| FfmpegError (msg : string)
| ENOENT (path : string).            (* fs call on a missing file *)

(** The error classes of the design, read off the constructors. *)
Definition is_DownloadError (e : Error) : bool :=
  match e with
  | AxiosGetError _ | DownloadFailedHttp _ | StreamError _ | DownloadTooSmall _ => true
  | _ => false
  end.

Definition is_NoFramesError (e : Error) : bool :=
  match e with NoSamples => true | _ => false end.

(** The interactions of one invocation with the outside, in order. *)
Inductive Event :=
| EvMkdir (dir : string)
| EvPost (cleanUrl : string)              (* POST https://tikwm.com/api/ *)
| EvGet (url : string)                    (* streaming GET *)
| EvWhich                                 (* execSync('which yt-dlp') *)
| EvYtDlp (bin url dest : string)         (* the downloader subprocess *)
| EvFfprobe (file : string)
| EvSeekInput (timestamp : Z) (out : string)   (* fast, keyframe-based capture *)
| EvSeek (timestamp : Z) (out : string)        (* frame-accurate capture *)
| EvToMp3 (out : string)
| EvUnlink (path : string).

Abbreviation Files := (gmap string (list byte)).

Record World := mkWorld {
  files : Files;           (* regular files, by path *)
  dirs : gset string;      (* directories *)
  log : list Event
}.

Definition set_files (f : Files → Files) (w : World) : World :=
  mkWorld (f (files w)) (dirs w) (log w).
Definition add_dir (d : string) (w : World) : World :=
  mkWorld (files w) ({[ d ]} ∪ dirs w) (log w).
Definition emit (ev : Event) (w : World) : World :=
  mkWorld (files w) (dirs w) (log w ++ [ev])%list.

(** What an external program did: the error it reported, if any, and the
    bytes it left at its output path, if it wrote there at all. *)
Record ToolRun := mkToolRun {
  tool_error : option string;
  tool_output : option (list byte)
}.

Definition leave_output (out : string) (r : ToolRun) (fs : Files) : Files :=
  match tool_output r with
  | Some bytes => <[ out := bytes ]> fs
  | None => fs
  end.

(** The JSON of the resolution API. *)
Record TikwmData := mkTikwmData {
  play : option string;
  hdplay : option string;
  wmplay : option string
}.

Record TikwmBody := mkTikwmBody {
  code : option Z;
  data : option TikwmData
}.

Inductive PostReply :=
| PostRejected (msg : string)
| PostResponse (body : option TikwmBody).

(** A streaming GET: rejected, or a response whose body stream delivered
    [body] and then finished or failed. *)
Inductive GetReply :=
| GetRejected (msg : string)
| GetResponse (status : Z) (body : list byte) (stream_error : option string).

Inductive SeekMode := SeekInput | Seek.

(** Everything the pipeline does not compute itself. The media tools see
    the bytes of their input file ([None] when it is missing). *)
Record Env := mkEnv {
  Date_now : N;
  os_tmpdir : string;
  localBin : string;                           (* path.join(__dirname, '../yt-dlp') *)
  which_yt_dlp : option string;                (* trimmed stdout, None when execSync throws *)
  axios_post : string → PostReply;             (* by cleaned page URL *)
  axios_get : string → GetReply;
  yt_dlp : string → string → ToolRun;          (* binary, URL *)
  ffprobe : option (list byte) → string + option Q;   (* error, or format.duration *)
  ffmpeg_frame : SeekMode → option (list byte) → Z → ToolRun;
  ffmpeg_mp3 : option (list byte) → ToolRun;
  toString_base64 : list byte → string
}.

(** ** The monad of the pipeline: state and exceptions *)

Inductive Outcome (A : Type) :=
| Return (a : A)
| Throw (e : Error).
Arguments Return {A} a.
Arguments Throw {A} e.

Definition M (A : Type) : Type := World → Outcome A * World.

Global Instance M_ret : MRet M := λ A a w, (Return a, w).
Global Instance M_bind : MBind M := λ A B f m w,
  match m w with
  | (Return a, w') => f a w'
  | (Throw e, w') => (Throw e, w')
  end.

Definition throw {A} (e : Error) : M A := λ w, (Throw e, w).

(** [try { body } catch (err) { handler }]. *)
Definition try_catch {A} (body : M A) (handler : Error → M A) : M A := λ w,
  match body w with
  | (Return a, w') => (Return a, w')
  | (Throw e, w') => handler e w'
  end.

Definition when (b : bool) (m : M unit) : M unit := if b then m else mret tt.

(** *** fs *)

Definition existsSync (p : string) : M bool := λ w,
  (Return (bool_decide (is_Some (files w !! p))), w).

Definition unlinkSync (p : string) : M unit := λ w,
  match files w !! p with
  | Some _ => (Return tt, emit (EvUnlink p) (set_files (delete p) w))
  | None => (Throw (ENOENT p), w)
  end.

Definition readFileSync (p : string) : M (list byte) := λ w,
  match files w !! p with
  | Some bytes => (Return bytes, w)
  | None => (Throw (ENOENT p), w)
  end.

(** [fs.statSync(p).size] *)
Definition statSync_size (p : string) : M nat := λ w,
  match files w !! p with
  | Some bytes => (Return (length bytes), w)
  | None => (Throw (ENOENT p), w)
  end.

(** [if (!fs.existsSync(dir)) fs.mkdirSync(dir, { recursive: true })] *)
Definition ensure_dir (dir : string) : M unit := λ w,
  if bool_decide (dir ∈ dirs w) then (Return tt, w)
  else (Return tt, emit (EvMkdir dir) (add_dir dir w)).

(** *** The collaborators, as monadic calls *)

Definition call_axios_get (e : Env) (url : string) : M (Z * list byte * option string) := λ w,
  match axios_get e url with
  | GetRejected msg => (Throw (AxiosGetError msg), emit (EvGet url) w)
  | GetResponse status body stream_error =>
      (Return (status, body, stream_error), emit (EvGet url) w)
  end.

(** [response.data.pipe(fs.createWriteStream(destPath))], awaited: the bytes
    that arrived are in the file; an ['error'] of either stream rejects. *)
Definition pipe_to_file (destPath : string) (body : list byte)
    (stream_error : option string) : M unit := λ w,
  let w' := set_files (insert destPath body) w in
  match stream_error with
  | Some msg => (Throw (StreamError msg), w')
  | None => (Return tt, w')
  end.

Definition call_axios_post (e : Env) (cleanUrl : string) : M (option TikwmBody) := λ w,
  match axios_post e cleanUrl with
  | PostRejected msg => (Throw (AxiosPostError msg), emit (EvPost cleanUrl) w)
  | PostResponse body => (Return body, emit (EvPost cleanUrl) w)
  end.

(** [try { ytdlp = execSync('which yt-dlp').trim() } catch (_) { }] *)
Definition execSync_which (e : Env) : M (option string) := λ w,
  (Return (which_yt_dlp e), emit EvWhich w).

(** [exec(`"${ytdlp}" -o "${destPath}" ... "${url}"`, { timeout: 120000 }, cb)] *)
Definition exec_yt_dlp (e : Env) (bin url destPath : string) : M unit := λ w,
  let r := yt_dlp e bin url in
  let w' := emit (EvYtDlp bin url destPath) (set_files (leave_output destPath r) w) in
  match tool_error r with
  | Some msg => (Throw (YtDlpFailed msg), w')
  | None => (Return tt, w')
  end.

Definition call_ffprobe (e : Env) (filePath : string) : M (option Q) := λ w,
  match ffprobe e (files w !! filePath) with
  | inl msg => (Throw (FfprobeError msg), emit (EvFfprobe filePath) w)
  | inr duration => (Return duration, emit (EvFfprobe filePath) w)
  end.

Definition seek_event (mode : SeekMode) (timestamp : Z) (out : string) : Event :=
  match mode with
  | SeekInput => EvSeekInput timestamp out
  | Seek => EvSeek timestamp out
  end.

(** One run of [ffmpeg(videoPath).seekInput(t) / .seek(t) .frames(1).output(framePath)]:
    the result is the tool's error, if it reported one. *)
Definition run_ffmpeg_frame (e : Env) (mode : SeekMode) (videoPath : string)
    (timestamp : Z) (framePath : string) : M (option string) := λ w,
  let r := ffmpeg_frame e mode (files w !! videoPath) timestamp in
  (Return (tool_error r),
   emit (seek_event mode timestamp framePath) (set_files (leave_output framePath r) w)).

(** [ffmpeg(videoPath).toFormat('mp3').on('end', resolve).on('error', reject).save(audioPath)] *)
Definition run_ffmpeg_mp3 (e : Env) (videoPath audioPath : string) : M unit := λ w,
  let r := ffmpeg_mp3 e (files w !! videoPath) in
  let w' := emit (EvToMp3 audioPath) (set_files (leave_output audioPath r) w) in
  match tool_error r with
  | Some msg => (Throw (FfmpegError msg), w')
  | None => (Return tt, w')
  end.

(** ** The pipeline *)

(** [downloadDirect(url, destPath)] (lines 513-547) *)
Definition downloadDirect (e : Env) (url destPath : string) : M unit :=
  response ← call_axios_get e url;
  let '(status, body, stream_error) := response in
  if bool_decide (status ≠ 200) then throw (DownloadFailedHttp status)
  else
    pipe_to_file destPath body stream_error;;
    size ← statSync_size destPath;
    if bool_decide (size < 1000)%nat then throw (DownloadTooSmall size)
    else mret tt.

(** [data.data.play || data.data.hdplay || data.data.wmplay] *)
Definition pick_videoUrl (d : TikwmData) : option string :=
  js_or (js_or (play d) (hdplay d)) (wmplay d).

(** [resolveTikTokUrl(url)] (lines 555-584) *)
Definition resolveTikTokUrl (e : Env) (url : string) : M string :=
  let cleanUrl := split_first "?" url in
  data ← call_axios_post e cleanUrl;
  match data with
  | Some (mkTikwmBody (Some 0) (Some d)) =>
      match pick_videoUrl d with
      | Some videoUrl => if truthy (Some videoUrl) then mret videoUrl else throw TikwmFailed
      | None => throw TikwmFailed
      end
  | _ => throw TikwmFailed
  end.

(** [downloadWithYtDlp(url, destPath)] (lines 589-605) *)
Definition downloadWithYtDlp (e : Env) (url destPath : string) : M unit :=
  hasLocal ← existsSync (localBin e);
  ytdlp ← (if hasLocal : bool then mret (Some (localBin e)) else execSync_which e);
  match ytdlp with
  | Some bin =>
      if truthy (Some bin) then exec_yt_dlp e bin url destPath
      else throw YtDlpNotAvailable
  | None => throw YtDlpNotAvailable
  end.

Record Frame := mkFrame {
  timestamp : Z;
  base64 : string;
  mimeType : string
}.

Record Extraction := mkExtraction {
  frames : list Frame;
  audioPath : string
}.

(** The promise of the loop body (lines 678-706): a fast seek, and on its
    error a frame-accurate seek whose error rejects. *)
Definition captureFrame (e : Env) (videoPath : string) (t : Z) (framePath : string) : M unit :=
  err ← run_ffmpeg_frame e SeekInput videoPath t framePath;
  match err with
  | None => mret tt
  | Some _ =>
      err2 ← run_ffmpeg_frame e Seek videoPath t framePath;
      match err2 with
      | None => mret tt
      | Some msg => throw (FfmpegError msg)
      end
  end.

(** One iteration of [for (const timestamp of timestamps)] (lines 674-719); the result is
    the array [frames] after the iteration. [frames.push] mutates the array
    before [fs.unlinkSync] runs, so an error of the unlink would reach the
    [catch] with the frame already pushed: the inner [try_catch] returns the
    pushed array on that path too. *)
Definition frameStep (e : Env) (tempDir : string) (videoId : N) (videoPath : string)
    (acc : list Frame) (t : Z) : M (list Frame) :=
  let framePath := framePath_of tempDir videoId t in
  try_catch
    (captureFrame e videoPath t framePath;;
     present ← existsSync framePath;
     if present : bool then
       frameBuffer ← readFileSync framePath;
       let frame := mkFrame t (toString_base64 e frameBuffer) "image/jpeg" in
       let pushed := (acc ++ [frame])%list in
       try_catch (unlinkSync framePath;; mret pushed) (λ ffmpegErr, mret pushed)
     else mret acc)
    (λ ffmpegErr, mret acc).

Fixpoint frameLoop (e : Env) (tempDir : string) (videoId : N) (videoPath : string)
    (timestamps : list Z) (acc : list Frame) : M (list Frame) :=
  match timestamps with
  | [] => mret acc
  | t :: rest =>
      acc' ← frameStep e tempDir videoId videoPath acc t;
      frameLoop e tempDir videoId videoPath rest acc'
  end.

(** [metadata.format.duration || 30] (line 655). The probed duration is
    a number or absent; a probe that reports a text in its place, on which
    [duration.toFixed(1)] of line 671 throws, is outside this model. *)
Definition duration_or_30 (duration : option Q) : Q :=
  match duration with
  | Some d => if JS.truthy_num d then d else 30%Q
  | None => 30%Q
  end.

(** Lines 622-644: fetch the video to [videoPath]. *)
Definition fetchVideo (e : Env) (videoUrl videoPath : string) : M unit :=
  let isTikTok := includes "tiktok.com" videoUrl in
  (if isTikTok then
     try_catch
       (directUrl ← resolveTikTokUrl e videoUrl;
        downloadDirect e directUrl videoPath)
       (λ apiErr, downloadWithYtDlp e videoUrl videoPath)
   else downloadDirect e videoUrl videoPath);;
  downloaded ← existsSync videoPath;
  when (negb downloaded) (throw VideoNotCreated);;
  _ ← statSync_size videoPath;
  mret tt.

(** [if (fs.existsSync(videoPath)) fs.unlinkSync(videoPath)] (lines 740 and 746) *)
Definition cleanupVideo (videoPath : string) : M unit :=
  present ← existsSync videoPath;
  when present (unlinkSync videoPath).

(** The body of the [try] block of [extractFrames] (lines 619-743). *)
Definition extractFrames_try (e : Env) (videoUrl : string)
    (manualTimestamps : option (list Z)) (tempDir : string) (videoId : N)
    (videoPath : string) : M Extraction :=
  fetchVideo e videoUrl videoPath;;
  metadata ← call_ffprobe e videoPath;
  let duration := duration_or_30 metadata in
  let timestamps := chooseTimestamps duration manualTimestamps in
  frames ← frameLoop e tempDir videoId videoPath timestamps [];
  if bool_decide (length frames = 0%nat) then throw NoSamples
  else
    let audioPath := audioPath_of tempDir videoId in
    run_ffmpeg_mp3 e videoPath audioPath;;
    cleanupVideo videoPath;;
    mret (mkExtraction frames audioPath).

(** [extractFrames(videoUrl, manualTimestamps = null)] (lines 611-749) *)
Definition extractFrames (e : Env) (videoUrl : string)
    (manualTimestamps : option (list Z)) : M Extraction :=
  let tempDir := os_tmpdir e in
  ensure_dir tempDir;;
  let videoId := Date_now e in
  let videoPath := videoPath_of tempDir videoId in
  try_catch
    (extractFrames_try e videoUrl manualTimestamps tempDir videoId videoPath)
    (λ error, cleanupVideo videoPath;; throw error).

(** ** Earlier variants of the helpers

    The history of the file holds older variants of the helpers, which the
    consolidated pipeline above replaced. Three of their choices differ. *)

Module Earlier.

(** [downloadDirect] before the size check (lines 921-937): the status is
    not inspected and the file is not validated. *)
Definition downloadDirect (e : Env) (url destPath : string) : M unit :=
  response ← call_axios_get e url;
  let '(status, body, stream_error) := response in
  pipe_to_file destPath body stream_error.

(** [data.data.hdplay || data.data.play || data.data.wmplay] (line 964) *)
Definition pick_videoUrl (d : TikwmData) : option string :=
  js_or (js_or (hdplay d) (play d)) (wmplay d).

(** [path.join(tempDir, `frame_${timestamp}s.jpg`)] (line 432): no
    identifier of the invocation in the name. *)
Definition framePath_of (tempDir : string) (timestamp : Z) : string :=
  path_join tempDir ("frame_" +:+ pretty timestamp +:+ "s.jpg").

End Earlier.

(** ** Notions used in the statements *)

(** [I] relates the world before a computation to the world after it; a
    computation preserves [I] when it always ends in a related world. *)
Definition preserves (I : relation World) {A} (m : M A) : Prop := ∀ w, I w (m w).2.

(** The relation used below: files outside [wr] and [del] keep their
    contents, files outside [del] stay in place (they may be overwritten),
    and the log only grows. *)
Definition extends (wr del : string → Prop) (w w' : World) : Prop :=
  (∀ p, ¬ wr p → ¬ del p → files w' !! p = files w !! p) ∧
  (∀ p, ¬ del p → is_Some (files w !! p) → is_Some (files w' !! p)) ∧
  log w `prefix_of` log w'.

Definition nowhere : string → Prop := λ _, False.

Definition only (q : string) : string → Prop := λ p, p = q.

(** The files one invocation may write, and those it may delete. *)
Definition written_by (tmp : string) (id : N) : string → Prop := λ p,
  p = videoPath_of tmp id ∨ p = audioPath_of tmp id ∨ ∃ t, p = framePath_of tmp id t.

Definition deleted_by (tmp : string) (id : N) : string → Prop := λ p,
  p = videoPath_of tmp id ∨ ∃ t, p = framePath_of tmp id t.

(** A string without an underscore, such as a string of decimal digits. *)
Fixpoint underscore_free (s : string) : Prop :=
  match s with
  | EmptyString => True
  | String c rest => c ≠ "_"%char ∧ underscore_free rest
  end.

(** Both seeks report an error: the iteration is skipped. *)
Definition rejects (e : Env) (video : option (list byte)) (t : Z) : Prop :=
  is_Some (tool_error (ffmpeg_frame e SeekInput video t)) ∧
  is_Some (tool_error (ffmpeg_frame e Seek video t)).

(** The bytes an iteration finds at a frame path that was free before it:
    those of the fast seek when it succeeds, else those the accurate seek
    left (or, if it wrote nothing, those the failed fast seek left) when it
    succeeds, else none. *)
Definition captured (e : Env) (video : option (list byte)) (t : Z) : option (list byte) :=
  let r1 := ffmpeg_frame e SeekInput video t in
  match tool_error r1 with
  | None => tool_output r1
  | Some _ =>
      let r2 := ffmpeg_frame e Seek video t in
      match tool_error r2 with
      | None => match tool_output r2 with
                | Some bytes => Some bytes
                | None => tool_output r1
                end
      | Some _ => None
      end
  end.

Definition frame_of (e : Env) (video : option (list byte)) (t : Z) : option Frame :=
  (λ bytes, mkFrame t (toString_base64 e bytes) "image/jpeg") <$> captured e video t.

(** The frames of the timestamps whose capture succeeded, in order. *)
Definition captured_frames (e : Env) (video : option (list byte)) (ts : list Z) : list Frame :=
  omap (frame_of e video) ts.

(** The world after one run of the frame tool. *)
Definition after_seek (e : Env) (mode : SeekMode) (vp : string) (t : Z) (fp : string)
    (w : World) : World :=
  emit (seek_event mode t fp)
    (set_files (leave_output fp (ffmpeg_frame e mode (files w !! vp) t)) w).

(** The frame files of an invocation. *)
Definition frame_paths (tmp : string) (id : N) : string → Prop := λ p,
  ∃ t, p = framePath_of tmp id t.

(** The binary [downloadWithYtDlp] settles on, if any: the local one when
    it exists, else the one [which] prints; an empty answer counts as none. *)
Definition available_yt_dlp (e : Env) (fs : Files) : option string :=
  let found :=
    if bool_decide (is_Some (fs !! localBin e)) then Some (localBin e)
    else which_yt_dlp e in
  if truthy found then found else None.

(** The world after the lookup of the binary. *)
Definition after_lookup (e : Env) (w : World) : World :=
  if bool_decide (is_Some (files w !! localBin e)) then w else emit EvWhich w.

(** The transient files of an invocation that got the identifier [id]
    and works on the timestamps [ts]. *)
Definition transient_paths (tmp : string) (id : N) (ts : list Z) : list string :=
  videoPath_of tmp id :: audioPath_of tmp id :: map (framePath_of tmp id) ts.

(** The timestamps of the fast-seek captures in a log, in order. *)
Definition seek_inputs (evs : list Event) : list Z :=
  omap (λ ev, match ev with EvSeekInput t _ => Some t | _ => None end) evs.

(** ** Concrete environments *)

(** An empty disk. *)
Definition w0 : World := mkWorld ∅ ∅ [].

(** A thousand bytes: the smallest download the Fetcher accepts. *)
Definition payload : list byte := replicate 1000 x2a.

Definition jpeg : list byte := [xff; xd8; xff; xe0].

Definition mp3 : list byte := [x49; x44; x33].

Definition tool_ok (bytes : list byte) : ToolRun := mkToolRun None (Some bytes).

Definition tool_failed (msg : string) (left : option (list byte)) : ToolRun :=
  mkToolRun (Some msg) left.

(** A server without yt-dlp whose resolution API is down, and a CDN that
    answers every GET with 200 and [payload]; the probe reports 10 seconds.
    The frame tool and the audio tool are parameters. The encoder of this
    environment is a stand-in that prints the number of bytes. *)
Definition server (frame_tool : SeekMode → option (list byte) → Z → ToolRun)
    (audio_tool : option (list byte) → ToolRun) : Env :=
  {| Date_now := 1700000000000;
     os_tmpdir := "/tmp";
     localBin := "/app/yt-dlp";
     which_yt_dlp := None;
     axios_post := λ _, PostRejected "connect ETIMEDOUT";
     axios_get := λ _, GetResponse 200 payload None;
     yt_dlp := λ _ _, tool_failed "spawn ENOENT" None;
     ffprobe := λ video,
       match video with Some _ => inr (Some 10%Q) | None => inl "No such file" end;
     ffmpeg_frame := frame_tool;
     ffmpeg_mp3 := audio_tool;
     toString_base64 := λ bytes, pretty (length bytes) |}.

Definition every_frame_ok : SeekMode → option (list byte) → Z → ToolRun :=
  λ _ _ _, tool_ok jpeg.

(** Both seeks fail at second 2 and at second 9, writing nothing. *)
Definition two_of_five_fail : SeekMode → option (list byte) → Z → ToolRun :=
  λ _ _ t, if bool_decide (t = 2 ∨ t = 9) then tool_failed "Conversion failed!" None
           else tool_ok jpeg.

(** Both seeks fail at second 2 after writing a truncated image. *)
Definition truncated_at_2 : SeekMode → option (list byte) → Z → ToolRun :=
  λ _ _ t, if bool_decide (t = 2) then tool_failed "Conversion failed!" (Some [xff; xd8])
           else tool_ok jpeg.

Definition no_frame_ok : SeekMode → option (list byte) → Z → ToolRun :=
  λ _ _ _, tool_failed "Conversion failed!" None.

Definition audio_ok : option (list byte) → ToolRun := λ _, tool_ok mp3.

(** The audio tool fails after it wrote the start of the file. *)
Definition audio_breaks : option (list byte) → ToolRun :=
  λ _, tool_failed "Output file does not contain any stream" (Some [x49; x44]).

Definition direct_url : string := "https://cdn.example.com/ad.mp4".

Definition other_url : string := "https://cdn.example.com/another.mp4".

Definition tiktok_url : string := "https://www.tiktok.com/@shop/video/7300000000000000000?lang=en".

(** The same server behind a CDN that answers with [reply]. *)
Definition with_get (reply : GetReply) (e : Env) : Env :=
  mkEnv (Date_now e) (os_tmpdir e) (localBin e) (which_yt_dlp e) (axios_post e)
    (λ _, reply) (yt_dlp e) (ffprobe e) (ffmpeg_frame e) (ffmpeg_mp3 e)
    (toString_base64 e).

(** The same server with a resolution API that answers with [reply]. *)
Definition with_post (reply : PostReply) (e : Env) : Env :=
  mkEnv (Date_now e) (os_tmpdir e) (localBin e) (which_yt_dlp e) (λ _, reply)
    (axios_get e) (yt_dlp e) (ffprobe e) (ffmpeg_frame e) (ffmpeg_mp3 e)
    (toString_base64 e).

(** The frames of the demonstration runs: every image has four bytes. *)
Definition demo_frames (ts : list Z) : list Frame :=
  map (λ t, mkFrame t "4" "image/jpeg") ts.

(** The same server with [which] printing [path] and a downloader that
    behaves as [run]. *)
Definition with_yt_dlp (path : option string) (run : ToolRun) (e : Env) : Env :=
  mkEnv (Date_now e) (os_tmpdir e) (localBin e) path (axios_post e)
    (axios_get e) (λ _ _, run) (ffprobe e) (ffmpeg_frame e) (ffmpeg_mp3 e)
    (toString_base64 e).

(** The worlds a run on the empty disk goes through. *)
Definition fetched (e : Env) (url : string) : World :=
  (fetchVideo e url (videoPath_of (os_tmpdir e) (Date_now e))
     (ensure_dir (os_tmpdir e) w0).2).2.

Definition probed (e : Env) (url : string) : World :=
  (call_ffprobe e (videoPath_of (os_tmpdir e) (Date_now e)) (fetched e url)).2.

Definition looped (e : Env) (url : string) (ts : list Z) : World :=
  (frameLoop e (os_tmpdir e) (Date_now e) (videoPath_of (os_tmpdir e) (Date_now e))
     ts [] (probed e url)).2.

Definition three_urls : TikwmData :=
  mkTikwmData (Some "https://v.example.com/play.mp4")
              (Some "https://v.example.com/hd.mp4")
              (Some "https://v.example.com/wm.mp4").

(** ** Notions used for the traces *)

(** The computation only adds events that satisfy [P]. *)
Definition adds (P : Event → Prop) (w w' : World) : Prop :=
  ∃ evs, log w' = (log w ++ evs)%list ∧ Forall P evs.

(** [u] is a URL the resolution API offers for [url]. *)
Definition resolved (e : Env) (url u : string) : Prop :=
  ∃ d, axios_post e (split_first "?" url)
         = PostResponse (Some (mkTikwmBody (Some 0) (Some d))) ∧
       pick_videoUrl d = Some u.

(** The interactions an invocation on [url] can have with the outside. *)
Definition own_event (e : Env) (url : string) (ev : Event) : Prop :=
  let tmp := os_tmpdir e in
  let id := Date_now e in
  let isTikTok := includes "tiktok.com" url in
  match ev with
  | EvMkdir d => d = tmp
  | EvPost u => isTikTok = true ∧ u = split_first "?" url
  | EvGet u => if isTikTok then resolved e url u else u = url
  | EvWhich => isTikTok = true
  | EvYtDlp bin u dest =>
      isTikTok = true ∧ (bin = localBin e ∨ which_yt_dlp e = Some bin) ∧
      u = url ∧ dest = videoPath_of tmp id
  | EvFfprobe f => f = videoPath_of tmp id
  | EvSeekInput t out => out = framePath_of tmp id t
  | EvSeek t out => out = framePath_of tmp id t
  | EvToMp3 out => out = audioPath_of tmp id
  | EvUnlink p => p = videoPath_of tmp id ∨ ∃ t, p = framePath_of tmp id t
  end.

(** ** The transcriber, the analyzer and the request handler

    [transcribeAudio] and [analyzeVideoFrames] (utils) and the handler of
    [POST /api/analyze-video-url] (index.js) run above the pipeline: they
    work on its file system and call the hosted speech and chat services. *)

(** [groq.audio.transcriptions.create(...)]: the transcription, or a
    rejection with its message and [error.cause?.code]. *)
Inductive WhisperReply :=
| Transcription (text : string)
| WhisperRejected (message : string) (cause_code : option string).

(** [groq.chat.completions.create(...)]: a completion with
    [choices[0]?.message?.content], or a rejection. *)
Inductive ChatReply :=
| ChatRejected (message : string)
| ChatCompletion (content : option string).

(** The configuration and the services. The speech service may answer each
    attempt differently; the completion is requested with
    [response_format: { type: 'json_object' }], so a text that parses is
    an object, given by its fields. *)
Record Services := mkServices {
  GROQ_API_KEY : option string;
  transcriptions_create : nat → option (list byte) → WhisperReply;
  completions_create : list Frame → string → string → ChatReply;
  JSON_parse : string → option (list (string * string))
}.

(** The calls to the speech service and to the chat service, and the
    pauses of the retry loop, in order. The interactions of the pipeline,
    the resolution API among them, are in the log of the world. *)
Inductive Call :=
| CallWhisper (attempt : nat) (file : string)
| CallTimeout (ms : nat)
| CallChat (images : list Frame) (productContext spoken : string).

Record Site := mkSite {
  world : World;
  calls : list Call
}.

Inductive Failure :=
| KeyMissing                       (* 'Groq API Key is missing for Audio Transcription' *)
| VisionKeyMissing                 (* 'Groq API Key is missing for Vision Analysis' *)
| WhisperFailure (message : string) (cause_code : option string)
| ChatFailure (message : string)
| EmptyResponse                    (* 'Empty response from Groq Vision' *)
| SyntaxError (text : string)      (* of JSON.parse *)
| PipelineError (err : Error)      (* an error of the pipeline or of fs *)
| TranscriptionFailed (error : Failure)
                                   (* `Audio transcription failed after 3 attempts: ${error.message}` *)
| VideoAnalysisFailed (error : Failure)
                                   (* `Video analysis failed: ${error.message}` *)
| NoFramesFromUrl.                 (* 'No frames could be extracted from this URL.' *)

Inductive Settled (A : Type) :=
| Resolved (a : A)
| Rejected (error : Failure).
Arguments Resolved {A} a.
Arguments Rejected {A} error.

Definition Async (A : Type) : Type := Site → Settled A * Site.

Global Instance Async_ret : MRet Async := λ A a st, (Resolved a, st).
Global Instance Async_bind : MBind Async := λ A B f m st,
  match m st with
  | (Resolved a, st') => f a st'
  | (Rejected error, st') => (Rejected error, st')
  end.

Definition reject {A} (error : Failure) : Async A := λ st, (Rejected error, st).

Definition Async_try {A} (body : Async A) (handler : Failure → Async A) : Async A := λ st,
  match body st with
  | (Resolved a, st') => (Resolved a, st')
  | (Rejected error, st') => handler error st'
  end.

(** A computation of the pipeline's monad, run on the file system. *)
Definition lift {A} (m : M A) : Async A := λ st,
  match m (world st) with
  | (Return a, w) => (Resolved a, mkSite w (calls st))
  | (Throw err, w) => (Rejected (PipelineError err), mkSite w (calls st))
  end.

Definition call (c : Call) (st : Site) : Site := mkSite (world st) (calls st ++ [c])%list.

Definition call_transcriptions (s : Services) (attempt : nat) (audioPath : string) :
    Async string := λ st,
  match transcriptions_create s attempt (files (world st) !! audioPath) with
  | Transcription text => (Resolved text, call (CallWhisper attempt audioPath) st)
  | WhisperRejected message code =>
      (Rejected (WhisperFailure message code), call (CallWhisper attempt audioPath) st)
  end.

(** [await new Promise(r => setTimeout(r, ms))] *)
Definition setTimeout (ms : nat) : Async unit := λ st, (Resolved tt, call (CallTimeout ms) st).

Definition call_completions (s : Services) (images : list Frame)
    (productContext spoken : string) : Async (option string) := λ st,
  match completions_create s images productContext spoken with
  | ChatCompletion content => (Resolved content, call (CallChat images productContext spoken) st)
  | ChatRejected message =>
      (Rejected (ChatFailure message), call (CallChat images productContext spoken) st)
  end.

Definition MAX_RETRIES : nat := 3.

(** [error.cause?.code] *)
Definition cause_code_of (error : Failure) : option string :=
  match error with
  | WhisperFailure _ code => code
  | _ => None
  end.

(** [['ETIMEDOUT', 'ECONNRESET', 'ENOTFOUND'].includes(error.cause?.code)] *)
Definition isNetworkError (error : Failure) : bool :=
  match cause_code_of error with
  | Some code => bool_decide (code ∈ ["ETIMEDOUT"; "ECONNRESET"; "ENOTFOUND"])
  | None => false
  end.

(** [if (fs.existsSync(audioPath)) fs.unlinkSync(audioPath)] *)
Definition cleanupAudio (audioPath : string) : M unit :=
  present ← existsSync audioPath;
  when present (unlinkSync audioPath).

(** One iteration of the retry loop of [transcribeAudio]: [Some text] when
    the function returns [text], [None] when the loop goes on. *)
Definition transcribeAttempt (s : Services) (audioPath : string) (attempt : nat) :
    Async (option string) :=
  Async_try
    (text ← call_transcriptions s attempt audioPath;
     lift (cleanupAudio audioPath);;
     mret (Some text))
    (λ error,
       if (attempt <? MAX_RETRIES)%nat && isNetworkError error then
         setTimeout 2000;; mret None
       else
         lift (cleanupAudio audioPath);;
         reject (TranscriptionFailed error)).

(** [for (let attempt = 1; attempt <= MAX_RETRIES; attempt++)] over the
    attempts still to make; a loop that ran out returns [undefined]. *)
Fixpoint attemptLoop (s : Services) (audioPath : string) (attempts : list nat) :
    Async (option string) :=
  match attempts with
  | [] => mret None
  | attempt :: rest =>
      returned ← transcribeAttempt s audioPath attempt;
      match returned with
      | Some text => mret (Some text)
      | None => attemptLoop s audioPath rest
      end
  end.

(** [transcribeAudio(audioPath)] (utils/audioTranscriber.js, lines 9-45) *)
Definition transcribeAudio (s : Services) (audioPath : string) : Async (option string) :=
  if negb (truthy (GROQ_API_KEY s)) then reject KeyMissing
  else attemptLoop s audioPath (seq 1 MAX_RETRIES).

(** [analyzeVideoFrames(frames, productContext = '', transcript = '')]
    (utils/visionAnalyzer.js, the Groq variant) *)
Definition analyzeVideoFrames (s : Services) (images : list Frame)
    (productContext spoken : string) : Async (list (string * string)) :=
  if negb (truthy (GROQ_API_KEY s)) then reject VisionKeyMissing
  else
    Async_try
      (responseText ← call_completions s images productContext spoken;
       match responseText with
       | Some text =>
           if truthy (Some text) then
             match JSON_parse s text with
             | Some object => mret object
             | None => reject (SyntaxError text)
             end
           else reject EmptyResponse
       | None => reject EmptyResponse
       end)
      (λ error, reject (VideoAnalysisFailed error)).

(** [req.body] *)
Record Request := mkRequest {
  videoUrl : option string;
  userId : option string
}.

(** The JSON of a response: an error, or the analysis with the value
    assigned to [analysis.transcript]. *)
Inductive Json :=
| ErrorJson (error : string) (details : option Failure)
| AnalysisJson (analysis : list (string * string)) (transcript : option string)
    (framesAnalyzed : nat) (hasAudio : bool).

Record Response := mkResponse {
  statusCode : nat;
  json : Json
}.

(** The [try] block of the handler (index.js, lines 1120-1151). A
    transcript that is [undefined] makes the logging throw inside the inner
    [try], after the assignment: the variable keeps the value either way. *)
Definition analyze_video_url_try (e : Env) (s : Services) (url : string) : Async Response :=
  x ← lift (extractFrames e url None);
  (if bool_decide (length (frames x) = 0%nat) then reject NoFramesFromUrl else mret tt);;
  transcript ← (if truthy (Some (audioPath x)) then
                  Async_try (transcribeAudio s (audioPath x)) (λ err, mret (Some ""))
                else mret (Some ""));
  analysis ← analyzeVideoFrames s (frames x) ("Analysis of: " +:+ url) (default "" transcript);
  mret (mkResponse 200
          (AnalysisJson analysis transcript (length (frames x)) (truthy transcript))).

(** [app.post('/api/analyze-video-url', async (req, res) => ...)]
    (index.js, lines 1109-1160) *)
Definition analyze_video_url (e : Env) (s : Services) (req : Request) (st : Site) :
    Response * Site :=
  if negb (truthy (videoUrl req)) then
    (mkResponse 400 (ErrorJson "Video URL is required" None), st)
  else if negb (truthy (GROQ_API_KEY s)) then
    (mkResponse 503 (ErrorJson "Groq API not configured" None), st)
  else
    match analyze_video_url_try e s (default "" (videoUrl req)) st with
    | (Resolved response, st') => (response, st')
    | (Rejected error, st') =>
        (mkResponse 500 (ErrorJson "Failed to extract DNA from URL" (Some error)), st')
    end.

(** ** Notions used for the transcriber *)

(** The world after [if (fs.existsSync(p)) fs.unlinkSync(p)]. *)
Definition without (p : string) (w : World) : World :=
  if bool_decide (is_Some (files w !! p)) then emit (EvUnlink p) (set_files (delete p) w)
  else w.

(** A reply after which the loop tries again, when attempts are left. *)
Definition retryable (reply : WhisperReply) : Prop :=
  match reply with
  | WhisperRejected _ (Some code) => code ∈ ["ETIMEDOUT"; "ECONNRESET"; "ENOTFOUND"]
  | _ => False
  end.

(** The calls of a run that ends with attempt [1 + retries]. *)
Definition attempt_calls (audioPath : string) (retries : nat) : list Call :=
  CallWhisper 1 audioPath ::
  flat_map (λ attempt, [CallTimeout 2000; CallWhisper attempt audioPath]) (seq 2 retries).

(** What the function settles with after the reply to its last attempt. *)
Definition settle (reply : WhisperReply) : Settled (option string) :=
  match reply with
  | Transcription text => Resolved (Some text)
  | WhisperRejected message code =>
      Rejected (TranscriptionFailed (WhisperFailure message code))
  end.

(** ** Concrete services *)

(** Speech and chat services with the key [key]: the speech service
    answers attempt [n] with [replies n], the chat service with [chat];
    the parser is a stand-in that knows the empty object only. *)
Definition groq (key : option string) (replies : nat → WhisperReply) (chat : ChatReply) :
    Services :=
  {| GROQ_API_KEY := key;
     transcriptions_create := λ attempt _, replies attempt;
     completions_create := λ _ _ _, chat;
     JSON_parse := λ text, if String.eqb text "{}" then Some [] else None |}.

Definition timeout_then (text : string) (attempt : nat) : WhisperReply :=
  match attempt with
  | 1%nat => WhisperRejected "Connection error." (Some "ETIMEDOUT")
  | _ => Transcription text
  end.

Definition unauthorized (attempt : nat) : WhisperReply :=
  WhisperRejected "401 Invalid API Key" None.

Definition site0 : Site := mkSite w0 [].

(** The value of the handler's [transcript] after the transcription step. *)
Definition transcript_after (r : Settled (option string)) : option string :=
  match r with
  | Resolved t => t
  | Rejected _ => Some ""
  end.

(** The errors the analyzer wraps. *)
Definition is_chat_failure (error : Failure) : Prop :=
  match error with
  | ChatFailure _ | EmptyResponse | SyntaxError _ => True
  | _ => False
  end.

Definition audio_request : Request := mkRequest (Some direct_url) None.

(** * Properties *)

(** ** Insertion-ordered sets and sorted arrays *)

Section SortedLists.
Context {A : Type} (R : relation A).

Lemma StronglySorted_sublist (l k : list A) :
  sublist k l → StronglySorted R l → StronglySorted R k.
Proof.
  induction 1 as [|x k l Hsub IH|x k l Hsub IH]; intros Hl.
  - constructor.
  - apply StronglySorted_cons in Hl as [Hx Hl].
    apply StronglySorted_cons; split; [|by apply IH].
    rewrite Forall_forall in Hx |- *. intros y Hy.
    apply Hx. by eapply elem_of_sublist.
  - apply StronglySorted_cons in Hl as [_ Hl]. by apply IH.
Qed.

Lemma StronglySorted_irrefl_NoDup `{!Irreflexive R} (l : list A) :
  StronglySorted R l → NoDup l.
Proof.
  induction 1 as [|x l _ IH Hx]; constructor; [|done].
  intros Hin. rewrite Forall_forall in Hx.
  by apply (irreflexivity R x), Hx.
Qed.
End SortedLists.

Lemma Set_add_elem_of (s : list Z) (x a : Z) :
  a ∈ JS.Set_add s x ↔ a ∈ s ∨ a = x.
Proof.
  unfold JS.Set_add. case_decide.
  - split; [by left|]. intros [?| ->]; done.
  - rewrite elem_of_app, list_elem_of_singleton. done.
Qed.

Lemma Set_add_sorted (s : list Z) (x : Z) :
  StronglySorted Z.lt s → (∀ a, a ∈ s → a ≤ x) →
  StronglySorted Z.lt (JS.Set_add s x).
Proof.
  intros Hs Hle. unfold JS.Set_add. case_decide as Hx; [done|].
  apply StronglySorted_app; repeat split; [|done|repeat constructor].
  intros a b Ha Hb. apply list_elem_of_singleton in Hb as ->.
  assert (a ≠ x) by (intros ->; done).
  specialize (Hle a Ha). lia.
Qed.

Lemma Set_add_prefix (s : list Z) (x : Z) : s `prefix_of` JS.Set_add s x.
Proof.
  unfold JS.Set_add. case_decide; [done|]. by apply prefix_app_r.
Qed.

Lemma foldl_Set_add_prefix (l s : list Z) : s `prefix_of` foldl JS.Set_add s l.
Proof.
  revert s. induction l as [|x l IH]; intros s; simpl; [done|].
  etrans; [apply Set_add_prefix|apply IH].
Qed.

Lemma foldl_Set_add_elem_of (l s : list Z) (a : Z) :
  a ∈ foldl JS.Set_add s l ↔ a ∈ s ∨ a ∈ l.
Proof.
  revert s. induction l as [|x l IH]; intros s; simpl.
  - rewrite elem_of_nil. tauto.
  - rewrite IH, Set_add_elem_of, elem_of_cons. tauto.
Qed.

Lemma foldl_Set_add_sorted (l s : list Z) :
  StronglySorted Z.lt s → StronglySorted Z.le l →
  (∀ a b, a ∈ s → b ∈ l → a ≤ b) →
  StronglySorted Z.lt (foldl JS.Set_add s l).
Proof.
  revert s. induction l as [|x l IH]; intros s Hs Hl Hsl; simpl; [done|].
  apply StronglySorted_cons in Hl as [Hx Hl]. rewrite Forall_forall in Hx.
  apply IH; [|done|].
  - apply Set_add_sorted; [done|]. intros a Ha. apply Hsl; [done|left].
  - intros a b Ha Hb. apply Set_add_elem_of in Ha as [Ha| ->].
    + apply Hsl; [done|by right].
    + by apply Hx.
Qed.

(** An ascending array turns into a strictly ascending one. *)
Lemma Set_of_sorted (l : list Z) :
  StronglySorted Z.le l → StronglySorted Z.lt (JS.Set_of l).
Proof.
  intros Hl. apply foldl_Set_add_sorted; [constructor|done|].
  intros a b Ha. by apply elem_of_nil in Ha.
Qed.

Lemma Set_of_elem_of (l : list Z) (a : Z) : a ∈ JS.Set_of l ↔ a ∈ l.
Proof. unfold JS.Set_of. rewrite foldl_Set_add_elem_of, elem_of_nil. tauto. Qed.

Lemma Set_of_head (x : Z) (l : list Z) : ∃ r, JS.Set_of (x :: l) = x :: r.
Proof.
  unfold JS.Set_of. simpl. unfold JS.Set_add at 2.
  rewrite decide_False by apply not_elem_of_nil. simpl.
  destruct (foldl_Set_add_prefix l [x]) as [r ->]. by exists r.
Qed.

Lemma JS_lt_spec (a b : Q) : JS.lt a b = true ↔ (a < b)%Q.
Proof.
  unfold JS.lt. rewrite Qlt_alt. destruct (a ?= b)%Q; split; congruence.
Qed.

(** ** The Sampler *)

Section SamplerFacts.
Variable times : Q → Q → Q.
(** What the properties of the Sampler need of the multiplication: on a
    positive duration it is monotone in the factor and keeps the sign.
    Both the exact product and its correctly rounded version qualify. *)
Hypothesis times_mono : ∀ d c c', (0 < d)%Q → (c <= c')%Q → (times d c <= times d c')%Q.
Hypothesis times_nonneg : ∀ d c, (0 < d)%Q → (0 <= c)%Q → (0 <= times d c)%Q.

Lemma floored_candidates_ascending (d : Q) :
  (0 < d)%Q → ∃ l, map JS.floor (candidates times d) = 0 :: l ∧
                    StronglySorted Z.le (0 :: l).
Proof.
  intros Hd. unfold candidates. simpl map. eexists; split; [reflexivity|].
  assert (0 <= times d 0.1)%Q as H1 by (by apply times_nonneg).
  assert (times d 0.1 <= times d 0.25)%Q as H2 by (by apply times_mono).
  assert (times d 0.25 <= times d 0.5)%Q as H3 by (by apply times_mono).
  assert (times d 0.5 <= times d 0.9)%Q as H4 by (by apply times_mono).
  assert (0 <= JS.min 2 (times d 0.1))%Q as Hm0.
  { unfold JS.min. apply Q.min_glb; [done|done]. }
  assert (JS.min 2 (times d 0.1) <= times d 0.25)%Q as Hm1.
  { unfold JS.min. eapply Qle_trans; [apply Q.le_min_r|done]. }
  apply (Qfloor_resp_le 0) in Hm0. change (Qfloor 0) with 0 in Hm0.
  apply Qfloor_resp_le in Hm1, H3, H4. unfold JS.floor.
  repeat (apply StronglySorted_cons; split); try constructor;
    repeat constructor; lia.
Qed.

Lemma sampleWith_sound (d : Q) :
  (0 < d)%Q →
  StronglySorted Z.lt (sampleWith times d) ∧
  NoDup (sampleWith times d) ∧
  (1 ≤ length (sampleWith times d) ≤ 5)%nat ∧
  Forall (λ t, (inject_Z t < d)%Q) (sampleWith times d) ∧
  head (sampleWith times d) = Some 0.
Proof.
  intros Hd. unfold sampleWith, JS.slice0.
  destruct (floored_candidates_ascending d Hd) as (l & -> & Hl).
  assert (StronglySorted Z.lt
    (take 5 (filter (λ t, JS.lt (inject_Z t) d = true) (JS.Set_of (0 :: l))))) as Hs.
  { eapply StronglySorted_sublist; [apply sublist_take|].
    eapply StronglySorted_sublist; [apply sublist_filter|].
    by apply Set_of_sorted. }
  destruct (Set_of_head 0 l) as [r Hr].
  assert (JS.lt (inject_Z 0) d = true) as H0 by (by apply JS_lt_spec).
  split; [done|]. split; [by eapply (StronglySorted_irrefl_NoDup Z.lt)|].
  split.
  { rewrite Hr, filter_cons_True by done. simpl. rewrite length_take. lia. }
  split.
  { apply Forall_forall. intros t Ht.
    eapply elem_of_sublist in Ht; [|apply sublist_take].
    apply list_elem_of_filter in Ht as [Ht _]. by apply JS_lt_spec. }
  rewrite Hr, filter_cons_True by done. done.
Qed.
End SamplerFacts.

(** The exact product qualifies. *)
Lemma Qmult_times_mono (d c c' : Q) :
  (0 < d)%Q → (c <= c')%Q → (d * c <= d * c')%Q.
Proof. intros Hd Hc. by apply Qmult_le_l. Qed.

Lemma Qmult_times_nonneg (d c : Q) : (0 < d)%Q → (0 <= c)%Q → (0 <= d * c)%Q.
Proof. intros Hd Hc. apply Qmult_le_0_compat; [by apply Qlt_le_weak|done]. Qed.

(** So does a product whose factor and result are rounded by a monotone,
    sign-preserving rounding; the bounds of the Sampler do not rest on the
    products being exact. *)
Corollary sampleWith_rounded_sound (rnd : Q → Q) (d : Q) :
  (∀ x y, (x <= y)%Q → (rnd x <= rnd y)%Q) →
  (∀ x, (0 <= x)%Q → (0 <= rnd x)%Q) →
  (0 < d)%Q →
  let ts := sampleWith (λ a b, rnd (a * rnd b)%Q) d in
  StronglySorted Z.lt ts ∧ NoDup ts ∧ (1 ≤ length ts ≤ 5)%nat ∧
  Forall (λ t, (inject_Z t < d)%Q) ts.
Proof.
  intros Hmono Hsign Hd ts.
  destruct (sampleWith_sound (λ a b, rnd (a * rnd b)%Q)) with (d := d)
    as (? & ? & ? & ? & _); [| |done|done].
  - intros a c c' Ha Hc. by apply Hmono, Qmult_times_mono, Hmono.
  - intros a c Ha Hc. by apply Hsign, Qmult_times_nonneg, Hsign.
Qed.

Lemma foldl_Set_add_sublist (l s : list Z) :
  ∃ r, foldl JS.Set_add s l = (s ++ r)%list ∧ r `sublist_of` l.
Proof.
  revert s. induction l as [|x l IH]; intros s; simpl.
  - exists []. by rewrite app_nil_r.
  - destruct (IH (JS.Set_add s x)) as (r & -> & Hr). unfold JS.Set_add.
    case_decide.
    + exists r. split; [done|]. by apply sublist_cons.
    + exists (x :: r). split; [by rewrite <-app_assoc|]. by apply sublist_skip.
Qed.

(** The set keeps the first occurrence of every value, in order. *)
Lemma Set_of_sublist (l : list Z) : JS.Set_of l `sublist_of` l.
Proof.
  unfold JS.Set_of. by destruct (foldl_Set_add_sublist l []) as (r & -> & Hr).
Qed.

(** C1. For every duration [d > 0] and no manual override, the timestamps
    are what is left of the five candidates [0], [min(2, 0.1 d)], [0.25 d],
    [0.5 d], [0.9 d], floored, once duplicates and points not below [d] are
    discarded: a timestamp is in the result exactly when it is one of the
    floored candidates and strictly below [d], and the result keeps the
    order of the candidates. It is a strictly ascending, duplicate-free
    sequence of 1 to 5 integers, each strictly below [d]. *)
Theorem sampler_default_sound (d : Q) :
  (0 < d)%Q →
  let floored :=
    [0; Qfloor (Qmin 2 (d * 0.1)); Qfloor (d * 0.25); Qfloor (d * 0.5); Qfloor (d * 0.9)] in
  let ts := chooseTimestamps d None in
  (∀ t, t ∈ ts ↔ t ∈ floored ∧ (inject_Z t < d)%Q) ∧
  ts `sublist_of` floored ∧
  StronglySorted Z.lt ts ∧
  NoDup ts ∧
  (1 ≤ length ts ≤ 5)%nat ∧
  Forall (λ t, (inject_Z t < d)%Q) ts.
Proof.
  intros Hd floored ts.
  destruct (sampleWith_sound Qmult Qmult_times_mono Qmult_times_nonneg d Hd)
    as (Hsorted & Hnodup & Hlen & Hbelow & _).
  assert (ts = filter (λ t, JS.lt (inject_Z t) d = true) (JS.Set_of floored)) as Hts.
  { unfold ts, chooseTimestamps, defaultTimestamps, sampleWith, JS.slice0.
    change (map JS.floor (candidates Qmult d)) with floored.
    apply take_ge. etrans; [apply length_filter|].
    etrans; [apply sublist_length, Set_of_sublist|]. done. }
  split; [|split; [|done]].
  - intros t. rewrite Hts, list_elem_of_filter, Set_of_elem_of, JS_lt_spec. tauto.
  - rewrite Hts. etrans; [apply sublist_filter|apply Set_of_sublist].
Qed.

Lemma sampler_default_sound_witness :
  (∀ t, t ∈ chooseTimestamps 1.5 None ↔ t ∈ [0; 0; 0; 0; 1] ∧ (inject_Z t < 1.5)%Q) ∧
  StronglySorted Z.lt (chooseTimestamps 1.5 None) ∧
  (1 ≤ length (chooseTimestamps 1.5 None) ≤ 5)%nat.
Proof.
  destruct (sampler_default_sound 1.5) as (Hmem & _ & Hs & _ & Hlen & _);
    [reflexivity|].
  split; [exact Hmem|]. split; [exact Hs|exact Hlen].
Defined.

(** The two scenarios of the design document. *)
Example sampler_32_4 : chooseTimestamps 32.4 None = [0; 2; 8; 16; 29].
Proof. reflexivity. Qed.

Example sampler_1_5 : chooseTimestamps 1.5 None = [0; 1].
Proof. reflexivity. Qed.

(** ** Reasoning in the monad *)

Lemma bind_run {A B} (m : M A) (f : A → M B) (w : World) :
  (m ≫= f) w = match m w with
               | (Return a, w') => f a w'
               | (Throw e, w') => (Throw e, w')
               end.
Proof. reflexivity. Qed.

Lemma bind_Return {A B} (m : M A) (f : A → M B) (w w' : World) (a : A) :
  m w = (Return a, w') → (m ≫= f) w = f a w'.
Proof. intros H. by rewrite bind_run, H. Qed.

Lemma bind_Throw {A B} (m : M A) (f : A → M B) (w w' : World) (err : Error) :
  m w = (Throw err, w') → (m ≫= f) w = (Throw err, w').
Proof. intros H. by rewrite bind_run, H. Qed.

Lemma try_catch_Return {A} (m : M A) (h : Error → M A) (w w' : World) (a : A) :
  m w = (Return a, w') → try_catch m h w = (Return a, w').
Proof. intros H. unfold try_catch. by rewrite H. Qed.

Lemma try_catch_Throw {A} (m : M A) (h : Error → M A) (w w' : World) (err : Error) :
  m w = (Throw err, w') → try_catch m h w = h err w'.
Proof. intros H. unfold try_catch. by rewrite H. Qed.

(** *** What a computation leaves alone

    [I] relates the world before a computation to the world after it. A
    computation built from [I]-preserving parts preserves [I]. *)

Section Preserves.
Context (I : relation World) `{!PreOrder I}.

Lemma preserves_ret {A} (a : A) : preserves I (mret a).
Proof. intros w. simpl. reflexivity. Qed.

Lemma preserves_throw {A} (err : Error) : preserves I (@throw A err).
Proof. intros w. simpl. reflexivity. Qed.

Lemma preserves_bind {A B} (m : M A) (f : A → M B) :
  preserves I m → (∀ a, preserves I (f a)) → preserves I (m ≫= f).
Proof.
  intros Hm Hf w. rewrite bind_run. specialize (Hm w).
  destruct (m w) as [[a|err] w']; simpl in *; [|done].
  etrans; [exact Hm|apply Hf].
Qed.

Lemma preserves_try_catch {A} (m : M A) (h : Error → M A) :
  preserves I m → (∀ err, preserves I (h err)) → preserves I (try_catch m h).
Proof.
  intros Hm Hh w. unfold try_catch. specialize (Hm w).
  destruct (m w) as [[a|err] w']; simpl in *; [done|].
  etrans; [exact Hm|apply Hh].
Qed.

Lemma preserves_when (b : bool) (m : M unit) : preserves I m → preserves I (when b m).
Proof. destruct b; [done|intros _; apply preserves_ret]. Qed.


End Preserves.

Global Instance extends_preorder wr del : PreOrder (extends wr del).
Proof.
  split.
  - intros w. by repeat split.
  - intros w1 w2 w3 (Ha1 & Hb1 & Hc1) (Ha2 & Hb2 & Hc2). repeat split.
    + intros p Hw Hd. rewrite Ha2, Ha1; done.
    + intros p Hd Hp. by apply Hb2, Hb1.
    + by etrans.
Qed.

Lemma extends_mono (wr del wr' del' : string → Prop) (w w' : World) :
  (∀ p, wr p → wr' p) → (∀ p, del p → del' p) →
  extends wr del w w' → extends wr' del' w w'.
Proof.
  intros Hwr Hdel (Ha & Hb & Hc). repeat split; [| |done].
  - intros p Hw Hd. apply Ha; naive_solver.
  - intros p Hd. apply Hb; naive_solver.
Qed.

Lemma preserves_mono {A} (wr del wr' del' : string → Prop) (m : M A) :
  (∀ p, wr p → wr' p) → (∀ p, del p → del' p) →
  preserves (extends wr del) m → preserves (extends wr' del') m.
Proof. intros ?? Hm w. by eapply extends_mono. Qed.

Lemma extends_emit wr del (ev : Event) (w : World) : extends wr del w (emit ev w).
Proof. repeat split; simpl; [done..|by apply prefix_app_r]. Qed.

Lemma extends_insert (q : string) (bytes : list byte) (w : World) :
  extends (only q) nowhere w (set_files (insert q bytes) w).
Proof.
  repeat split; simpl; [| |done].
  - intros p Hp _. apply lookup_insert_ne. by intros ->.
  - intros p _ Hp. destruct (decide (q = p)) as [->|].
    + by rewrite lookup_insert_eq.
    + by rewrite lookup_insert_ne.
Qed.

Lemma extends_delete (q : string) (w : World) :
  extends nowhere (only q) w (set_files (delete q) w).
Proof.
  repeat split; simpl; [| |done].
  - intros p _ Hp. apply lookup_delete_ne. by intros ->.
  - intros p Hp. rewrite lookup_delete_ne; [done|]. by intros ->.
Qed.

Lemma extends_leave_output (out : string) (r : ToolRun) (w : World) :
  extends (only out) nowhere w (set_files (leave_output out r) w).
Proof.
  unfold leave_output. destruct (tool_output r).
  - apply extends_insert.
  - by destruct w.
Qed.

Local Ltac widen := eapply extends_mono; [| |done]; unfold nowhere, only; naive_solver.

Section Primitives.
Variables wr del : string → Prop.

Lemma existsSync_preserves p : preserves (extends wr del) (existsSync p).
Proof. intros w. simpl. reflexivity. Qed.

Lemma readFileSync_preserves p : preserves (extends wr del) (readFileSync p).
Proof. intros w. unfold readFileSync. destruct (files w !! p); simpl; reflexivity. Qed.

Lemma statSync_size_preserves p : preserves (extends wr del) (statSync_size p).
Proof. intros w. unfold statSync_size. destruct (files w !! p); simpl; reflexivity. Qed.

Lemma unlinkSync_preserves p : del p → preserves (extends wr del) (unlinkSync p).
Proof.
  intros Hp w. unfold unlinkSync. destruct (files w !! p); simpl; [|reflexivity].
  etrans; [|apply extends_emit].
  pose proof (extends_delete p w). widen.
Qed.

Lemma ensure_dir_preserves d : preserves (extends wr del) (ensure_dir d).
Proof.
  intros w. unfold ensure_dir. case_bool_decide; simpl; [reflexivity|].
  by repeat split; simpl; [..|apply prefix_app_r].
Qed.

Lemma call_axios_get_preserves e url : preserves (extends wr del) (call_axios_get e url).
Proof.
  intros w. unfold call_axios_get. destruct (axios_get e url); simpl; apply extends_emit.
Qed.

Lemma call_axios_post_preserves e url : preserves (extends wr del) (call_axios_post e url).
Proof.
  intros w. unfold call_axios_post. destruct (axios_post e url); simpl; apply extends_emit.
Qed.

Lemma execSync_which_preserves e : preserves (extends wr del) (execSync_which e).
Proof. intros w. apply extends_emit. Qed.

Lemma call_ffprobe_preserves e p : preserves (extends wr del) (call_ffprobe e p).
Proof.
  intros w. unfold call_ffprobe. destruct (ffprobe e _); simpl; apply extends_emit.
Qed.

Lemma pipe_to_file_preserves dest body serr :
  wr dest → preserves (extends wr del) (pipe_to_file dest body serr).
Proof.
  intros Hd w. unfold pipe_to_file.
  pose proof (extends_insert dest body w).
  destruct serr; simpl; widen.
Qed.

Lemma exec_yt_dlp_preserves e bin url dest :
  wr dest → preserves (extends wr del) (exec_yt_dlp e bin url dest).
Proof.
  intros Hd w. unfold exec_yt_dlp.
  pose proof (extends_leave_output dest (yt_dlp e bin url) w).
  destruct (tool_error _); simpl; (etrans; [|apply extends_emit]); widen.
Qed.

Lemma run_ffmpeg_frame_preserves e mode vp t out :
  wr out → preserves (extends wr del) (run_ffmpeg_frame e mode vp t out).
Proof.
  intros Hd w. unfold run_ffmpeg_frame. simpl.
  pose proof (extends_leave_output out (ffmpeg_frame e mode (files w !! vp) t) w).
  etrans; [|apply extends_emit]. widen.
Qed.

Lemma run_ffmpeg_mp3_preserves e vp ap :
  wr ap → preserves (extends wr del) (run_ffmpeg_mp3 e vp ap).
Proof.
  intros Hd w. unfold run_ffmpeg_mp3.
  pose proof (extends_leave_output ap (ffmpeg_mp3 e (files w !! vp)) w).
  destruct (tool_error _); simpl; (etrans; [|apply extends_emit]); widen.
Qed.
End Primitives.

(** *** The footprint of every stage *)

Local Ltac pres_step :=
  first
    [ apply (preserves_ret (extends _ _))
    | apply (preserves_throw (extends _ _))
    | apply (preserves_bind (extends _ _)); [|intros ?]
    | apply (preserves_try_catch (extends _ _)); [|intros ?]
    | apply (preserves_when (extends _ _))
    | apply existsSync_preserves
    | apply readFileSync_preserves
    | apply statSync_size_preserves
    | apply ensure_dir_preserves
    | apply call_axios_get_preserves
    | apply call_axios_post_preserves
    | apply execSync_which_preserves
    | apply call_ffprobe_preserves
    | apply unlinkSync_preserves; solve [auto]
    | apply pipe_to_file_preserves; solve [auto]
    | apply exec_yt_dlp_preserves; solve [auto]
    | apply run_ffmpeg_frame_preserves; solve [auto]
    | apply run_ffmpeg_mp3_preserves; solve [auto]
    | match goal with
      | |- preserves _ (match ?x with _ => _ end) => destruct x
      end ].

Section Footprints.
Variables wr del : string → Prop.

Lemma downloadDirect_preserves e url dest :
  wr dest → preserves (extends wr del) (downloadDirect e url dest).
Proof. intros ?. unfold downloadDirect. repeat pres_step. Qed.

Lemma resolveTikTokUrl_preserves e url :
  preserves (extends wr del) (resolveTikTokUrl e url).
Proof. unfold resolveTikTokUrl. repeat pres_step. Qed.

Lemma downloadWithYtDlp_preserves e url dest :
  wr dest → preserves (extends wr del) (downloadWithYtDlp e url dest).
Proof. intros ?. unfold downloadWithYtDlp. repeat pres_step. Qed.

Lemma fetchVideo_preserves e url vp :
  wr vp → preserves (extends wr del) (fetchVideo e url vp).
Proof.
  intros ?. unfold fetchVideo. repeat pres_step;
    auto using downloadDirect_preserves, downloadWithYtDlp_preserves,
      resolveTikTokUrl_preserves.
Qed.

Lemma cleanupVideo_preserves vp : del vp → preserves (extends wr del) (cleanupVideo vp).
Proof. intros ?. unfold cleanupVideo. repeat pres_step. Qed.

Lemma captureFrame_preserves e vp t out :
  wr out → preserves (extends wr del) (captureFrame e vp t out).
Proof. intros ?. unfold captureFrame. repeat pres_step. Qed.

Lemma frameStep_preserves e tmp id vp acc t :
  wr (framePath_of tmp id t) → del (framePath_of tmp id t) →
  preserves (extends wr del) (frameStep e tmp id vp acc t).
Proof.
  intros ??. unfold frameStep. repeat pres_step.
Qed.

Lemma frameLoop_preserves e tmp id vp ts acc :
  (∀ t, t ∈ ts → wr (framePath_of tmp id t) ∧ del (framePath_of tmp id t)) →
  preserves (extends wr del) (frameLoop e tmp id vp ts acc).
Proof.
  revert acc. induction ts as [|t ts IH]; intros acc Hts; simpl.
  - apply (preserves_ret (extends _ _)).
  - apply (preserves_bind (extends _ _)).
    + apply frameStep_preserves; apply Hts; left.
    + intros acc'. apply IH. intros t' Ht'. apply Hts. by right.
Qed.
End Footprints.

Lemma extractFrames_try_preserves e url manual :
  let tmp := os_tmpdir e in
  let id := Date_now e in
  preserves (extends (written_by tmp id) (deleted_by tmp id))
    (extractFrames_try e url manual tmp id (videoPath_of tmp id)).
Proof.
  intros tmp id. unfold extractFrames_try.
  apply (preserves_bind (extends _ _)); [apply fetchVideo_preserves; by left|intros _].
  apply (preserves_bind (extends _ _)); [apply call_ffprobe_preserves|intros md].
  apply (preserves_bind (extends _ _)).
  { apply frameLoop_preserves. intros t _. split; right; [right|]; by exists t. }
  intros fr. case_bool_decide; [apply (preserves_throw (extends _ _))|].
  apply (preserves_bind (extends _ _)); [apply run_ffmpeg_mp3_preserves; right; by left|intros _].
  apply (preserves_bind (extends _ _)); [apply cleanupVideo_preserves; by left|intros _].
  apply (preserves_ret (extends _ _)).
Qed.

Lemma extractFrames_preserves e url manual :
  preserves (extends (written_by (os_tmpdir e) (Date_now e))
                     (deleted_by (os_tmpdir e) (Date_now e)))
    (extractFrames e url manual).
Proof.
  unfold extractFrames.
  apply (preserves_bind (extends _ _)); [apply ensure_dir_preserves|intros _].
  apply (preserves_try_catch (extends _ _)); [apply extractFrames_try_preserves|intros err].
  apply (preserves_bind (extends _ _)); [apply cleanupVideo_preserves; by left|intros _].
  apply (preserves_throw (extends _ _)).
Qed.

(** ** File names *)

Lemma list_ascii_of_string_app (s t : string) :
  list_ascii_of_string (s +:+ t) = (list_ascii_of_string s ++ list_ascii_of_string t)%list.
Proof. induction s as [|c s IH]; simpl; [done|by rewrite IH]. Qed.

Lemma list_ascii_of_string_inj (s t : string) :
  list_ascii_of_string s = list_ascii_of_string t → s = t.
Proof.
  intros H. rewrite <-(string_of_list_ascii_of_string s), H.
  apply string_of_list_ascii_of_string.
Qed.

Lemma string_app_inv_tail (s1 s2 t : string) : s1 +:+ t = s2 +:+ t → s1 = s2.
Proof.
  intros H. apply list_ascii_of_string_inj.
  apply (f_equal list_ascii_of_string) in H.
  rewrite !list_ascii_of_string_app in H. by apply app_inv_tail in H.
Qed.

Lemma pretty_N_char_digit (x : N) : pretty_N_char x ≠ "_"%char.
Proof. unfold pretty_N_char. by repeat case_match. Qed.

Lemma pretty_N_go_underscore_free (x : N) (s : string) : underscore_free s → underscore_free (pretty_N_go x s).
Proof.
  revert s. induction (N.lt_wf_0 x) as [x _ IH]; intros s Hs.
  assert (x = 0 ∨ 0 < x)%N as [->|Hx] by lia.
  - by rewrite pretty_N_go_0.
  - rewrite pretty_N_go_step by done. apply IH.
    + by apply N.div_lt.
    + split; [apply pretty_N_char_digit|done].
Qed.

Lemma pretty_N_underscore_free (x : N) : underscore_free (pretty x).
Proof.
  unfold pretty, pretty_N. case_decide; [done|].
  by apply pretty_N_go_underscore_free.
Qed.

(** Two strings that start with underscore_free and an underscore agree on the
    underscore_free and on the rest. *)
Lemma split_at_underscore_inj (d1 d2 r1 r2 : string) :
  underscore_free d1 → underscore_free d2 →
  d1 +:+ String "_" r1 = d2 +:+ String "_" r2 → d1 = d2 ∧ r1 = r2.
Proof.
  revert d2. induction d1 as [|c d1 IH]; intros [|c' d2] H1 H2 Heq; simpl in *.
  - by injection Heq.
  - injection Heq as <- _. by destruct H2.
  - injection Heq as -> _. by destruct H1.
  - injection Heq as -> Heq. destruct H1 as [_ H1], H2 as [_ H2].
    destruct (IH d2 H1 H2 Heq) as [-> ->]. done.
Qed.

Lemma path_join_inj (dir a b : string) : path_join dir a = path_join dir b → a = b.
Proof.
  unfold path_join. intros H. apply (inj (String.app dir)) in H.
  by injection H.
Qed.

Lemma videoPath_of_inj (tmp : string) (id1 id2 : N) :
  videoPath_of tmp id1 = videoPath_of tmp id2 → id1 = id2.
Proof.
  intros H. apply path_join_inj in H. apply (inj (String.app "socially_video_")) in H.
  by apply string_app_inv_tail, (inj pretty) in H.
Qed.

Lemma audioPath_of_inj (tmp : string) (id1 id2 : N) :
  audioPath_of tmp id1 = audioPath_of tmp id2 → id1 = id2.
Proof.
  intros H. apply path_join_inj in H. apply (inj (String.app "audio_")) in H.
  by apply string_app_inv_tail, (inj pretty) in H.
Qed.

Lemma framePath_of_inj (tmp : string) (id1 id2 : N) (t1 t2 : Z) :
  framePath_of tmp id1 t1 = framePath_of tmp id2 t2 → id1 = id2 ∧ t1 = t2.
Proof.
  intros H. apply path_join_inj in H. unfold frameFilename_of in H.
  apply (inj (String.app "frame_")) in H.
  apply split_at_underscore_inj in H as [H1 H2]; [|apply pretty_N_underscore_free..].
  apply (inj pretty) in H1. by apply string_app_inv_tail, (inj pretty) in H2.
Qed.

Lemma videoPath_ne_audioPath (tmp : string) (id1 id2 : N) :
  videoPath_of tmp id1 ≠ audioPath_of tmp id2.
Proof. intros H. apply path_join_inj in H. discriminate. Qed.

Lemma videoPath_ne_framePath (tmp : string) (id1 id2 : N) (t : Z) :
  videoPath_of tmp id1 ≠ framePath_of tmp id2 t.
Proof. intros H. apply path_join_inj in H. discriminate. Qed.

Lemma audioPath_ne_framePath (tmp : string) (id1 id2 : N) (t : Z) :
  audioPath_of tmp id1 ≠ framePath_of tmp id2 t.
Proof. intros H. apply path_join_inj in H. discriminate. Qed.

(** ** Single steps of the pipeline *)

Lemma bind_Return_inv {A B} (m : M A) (f : A → M B) (w w' : World) (b : B) :
  (m ≫= f) w = (Return b, w') →
  ∃ a w1, m w = (Return a, w1) ∧ f a w1 = (Return b, w').
Proof.
  rewrite bind_run. destruct (m w) as [[a|err] w1]; [|discriminate].
  intros H. by exists a, w1.
Qed.

Lemma ensure_dir_run (d : string) (w : World) :
  ensure_dir d w = (Return tt, (ensure_dir d w).2) ∧
  files (ensure_dir d w).2 = files w.
Proof. unfold ensure_dir. by case_bool_decide. Qed.

(** The cleanup never fails and leaves no video file. *)
Lemma cleanupVideo_run (vp : string) (w : World) :
  cleanupVideo vp w =
    (Return tt,
     if bool_decide (is_Some (files w !! vp))
     then emit (EvUnlink vp) (set_files (delete vp) w) else w).
Proof.
  unfold cleanupVideo. rewrite bind_run. simpl. case_bool_decide as Hp; simpl; [|done].
  unfold unlinkSync. by destruct Hp as [b ->].
Qed.

Lemma cleanupVideo_removes (vp : string) (w : World) :
  files (cleanupVideo vp w).2 !! vp = None.
Proof.
  rewrite cleanupVideo_run. simpl. case_bool_decide as Hp; simpl.
  - apply lookup_delete_eq.
  - by apply eq_None_not_Some.
Qed.

Lemma cleanup_then_throw_run {A} (vp : string) (err : Error) (w : World) :
  (cleanupVideo vp;; @throw A err) w = (Throw err, (cleanupVideo vp w).2).
Proof. rewrite bind_run, cleanupVideo_run. done. Qed.

(** A fetch that returns has left a video file. *)
Lemma fetchVideo_Return_exists e url vp w w' :
  fetchVideo e url vp w = (Return tt, w') → is_Some (files w' !! vp).
Proof.
  unfold fetchVideo. intros H.
  apply bind_Return_inv in H as (u1 & w1 & Hdl & H).
  apply bind_Return_inv in H as (present & w2 & Hex & H).
  unfold existsSync in Hex. simplify_eq.
  apply bind_Return_inv in H as (u2 & w3 & Hwhen & H).
  apply bind_Return_inv in H as (size & w4 & Hstat & H).
  unfold statSync_size in Hstat.
  destruct (files w3 !! vp) eqn:Hvp; [|discriminate].
  cbv [mret M_ret] in H. simplify_eq. by rewrite Hvp.
Qed.

(** *** One iteration of the frame loop *)

Lemma lookup_leave_output (out : string) (r : ToolRun) (fs : Files) :
  leave_output out r fs !! out =
    match tool_output r with Some bytes => Some bytes | None => fs !! out end.
Proof. unfold leave_output. destruct (tool_output r); [apply lookup_insert_eq|done]. Qed.

Lemma lookup_leave_output_ne (out p : string) (r : ToolRun) (fs : Files) :
  out ≠ p → leave_output out r fs !! p = fs !! p.
Proof. intros ?. unfold leave_output. destruct (tool_output r); [by apply lookup_insert_ne|done]. Qed.

Lemma files_after_seek e mode vp t fp w :
  files (after_seek e mode vp t fp w) !! fp =
    match tool_output (ffmpeg_frame e mode (files w !! vp) t) with
    | Some bytes => Some bytes
    | None => files w !! fp
    end.
Proof. apply lookup_leave_output. Qed.

Lemma files_after_seek_ne e mode vp t fp w p :
  fp ≠ p → files (after_seek e mode vp t fp w) !! p = files w !! p.
Proof. apply lookup_leave_output_ne. Qed.

Lemma captureFrame_run e vp t fp w :
  vp ≠ fp →
  let video := files w !! vp in
  let w1 := after_seek e SeekInput vp t fp w in
  let w2 := after_seek e Seek vp t fp w1 in
  captureFrame e vp t fp w =
    match tool_error (ffmpeg_frame e SeekInput video t) with
    | None => (Return tt, w1)
    | Some _ =>
        match tool_error (ffmpeg_frame e Seek video t) with
        | None => (Return tt, w2)
        | Some msg => (Throw (FfmpegError msg), w2)
        end
    end.
Proof.
  intros Hne video w1 w2. unfold captureFrame. rewrite bind_run.
  change (run_ffmpeg_frame e SeekInput vp t fp w)
    with (Return (tool_error (ffmpeg_frame e SeekInput video t)), w1).
  destruct (tool_error (ffmpeg_frame e SeekInput video t)); [|done].
  rewrite bind_run.
  change (run_ffmpeg_frame e Seek vp t fp w1)
    with (Return (tool_error (ffmpeg_frame e Seek (files w1 !! vp) t)), w2).
  unfold w1 at 1. rewrite files_after_seek_ne by done. fold video.
  by destruct (tool_error (ffmpeg_frame e Seek video t)).
Qed.

(** The part of the iteration after a capture that resolved. *)
Lemma collect_run e t fp acc w :
  (present ← existsSync fp;
   if present : bool then
     frameBuffer ← readFileSync fp;
     let frame := mkFrame t (toString_base64 e frameBuffer) "image/jpeg" in
     let pushed := (acc ++ [frame])%list in
     try_catch (unlinkSync fp;; mret pushed) (λ ffmpegErr, mret pushed)
   else mret acc) w =
  match files w !! fp with
  | Some bytes =>
      (Return (acc ++ [mkFrame t (toString_base64 e bytes) "image/jpeg"])%list,
       emit (EvUnlink fp) (set_files (delete fp) w))
  | None => (Return acc, w)
  end.
Proof.
  rewrite bind_run. unfold existsSync.
  destruct (files w !! fp) as [bytes|] eqn:Hfp.
  - rewrite bool_decide_true by done. rewrite bind_run. unfold readFileSync.
    rewrite Hfp. unfold try_catch. rewrite bind_run. unfold unlinkSync. by rewrite Hfp.
  - by rewrite bool_decide_false by (by intros [? [=]]).
Qed.

Lemma frameStep_spec e tmp id vp acc t w :
  let fp := framePath_of tmp id t in
  let video := files w !! vp in
  vp ≠ fp →
  files w !! fp = None ∨ rejects e video t →
  ∃ w', frameStep e tmp id vp acc t w =
          (Return (acc ++ option_list (frame_of e video t))%list, w') ∧
        (∀ p, p ≠ fp → files w' !! p = files w !! p) ∧
        (files w' !! fp = None ∨ rejects e video t).
Proof.
  intros fp video Hne Hfree.
  unfold frameStep. unfold try_catch at 1. fold fp. rewrite bind_run.
  rewrite captureFrame_run by done. fold video.
  unfold frame_of, captured, rejects in *.
  set (w1 := after_seek e SeekInput vp t fp w).
  set (w2 := after_seek e Seek vp t fp w1).
  assert (∀ p, p ≠ fp → files w1 !! p = files w !! p) as Hw1.
  { intros p Hp. by apply files_after_seek_ne. }
  assert (∀ p, p ≠ fp → files w2 !! p = files w !! p) as Hw2.
  { intros p Hp. unfold w2. rewrite files_after_seek_ne by done. by apply Hw1. }
  assert (files w1 !! vp = video) as Hv1 by (by apply Hw1).
  pose proof (files_after_seek e SeekInput vp t fp w) as Hf1.
  pose proof (files_after_seek e Seek vp t fp w1) as Hf2.
  fold w1 in Hf1. fold w2 in Hf2. fold video in Hf1. rewrite Hv1 in Hf2.
  destruct (tool_error (ffmpeg_frame e SeekInput video t)) as [msg1|] eqn:E1.
  - destruct (tool_error (ffmpeg_frame e Seek video t)) as [msg2|] eqn:E2.
    + exists w2. split; [by rewrite app_nil_r|]. split; [done|]. right. by split.
    + destruct Hfree as [Hfree|[_ [? [=]]]]. rewrite Hfree in Hf1.
      rewrite collect_run, Hf2, Hf1.
      destruct (tool_output (ffmpeg_frame e Seek video t)) as [b2|];
        [|destruct (tool_output (ffmpeg_frame e SeekInput video t)) as [b1|]].
      all: eexists; (split; [by rewrite ?app_nil_r|]); split.
      all: try (intros p Hp; simpl; rewrite ?lookup_delete_ne by done; by apply Hw2).
      all: left; first [by rewrite Hf2, Hf1|apply lookup_delete_eq].
  - destruct Hfree as [Hfree|[[? [=]] _]]. rewrite Hfree in Hf1.
    rewrite collect_run, Hf1.
    destruct (tool_output (ffmpeg_frame e SeekInput video t)) as [b1|].
    all: eexists; (split; [by rewrite ?app_nil_r|]); split.
    all: try (intros p Hp; simpl; rewrite ?lookup_delete_ne by done; by apply Hw1).
    all: left; first [done|apply lookup_delete_eq].
Qed.

(** An iteration never throws: a failed capture is skipped. *)
Lemma frameStep_returns e tmp id vp acc t w :
  ∃ acc' w', frameStep e tmp id vp acc t w = (Return acc', w').
Proof.
  unfold frameStep. unfold try_catch at 1.
  match goal with |- context [let (_, _) := ?m w in _] => destruct (m w) as [[a|err] w'] end.
  - by exists a, w'.
  - by exists acc, w'.
Qed.

Lemma frameLoop_returns e tmp id vp ts acc w :
  ∃ fr w', frameLoop e tmp id vp ts acc w = (Return fr, w').
Proof.
  revert acc w. induction ts as [|t ts IH]; intros acc w; simpl.
  - by exists acc, w.
  - destruct (frameStep_returns e tmp id vp acc t w) as (acc' & w1 & Hstep).
    rewrite (bind_Return _ _ _ _ _ Hstep). apply IH.
Qed.

(** *** The frame loop *)

Lemma frameLoop_spec e tmp id ts acc w :
  let vp := videoPath_of tmp id in
  let video := files w !! vp in
  (∀ t, t ∈ ts → files w !! framePath_of tmp id t = None ∨ rejects e video t) →
  ∃ w', frameLoop e tmp id vp ts acc w =
          (Return (acc ++ captured_frames e video ts)%list, w') ∧
        (∀ p, (∀ t, t ∈ ts → p ≠ framePath_of tmp id t) → files w' !! p = files w !! p).
Proof.
  intros vp video. revert acc w video.
  induction ts as [|t ts IH]; intros acc w video Hfree; simpl.
  - exists w. split; [by rewrite app_nil_r|done].
  - destruct (frameStep_spec e tmp id vp acc t w) as (w1 & Hstep & Hoff & Hat).
    { apply videoPath_ne_framePath. }
    { apply Hfree. left. }
    rewrite (bind_Return _ _ _ _ _ Hstep).
    assert (files w1 !! vp = video) as Hvideo.
    { apply Hoff, videoPath_ne_framePath. }
    destruct (IH (acc ++ option_list (frame_of e video t))%list w1) as (w' & Hloop & Hrest).
    { rewrite Hvideo. intros t' Ht'.
      destruct (decide (t' = t)) as [->|Hne]; [done|].
      rewrite Hoff; [apply Hfree; by right|].
      intros Heq. by apply framePath_of_inj in Heq as [_ ?]. }
    exists w'. split.
    + fold video. rewrite Hloop, Hvideo. f_equal.
      rewrite <-app_assoc. f_equal. by destruct (frame_of e video t).
    + intros p Hp. rewrite Hrest.
      * apply Hoff, Hp. left.
      * intros t' Ht'. apply Hp. by right.
Qed.

(** ** The pipeline after a successful fetch and probe *)

Lemma extractFrames_from_loop e url manual w w2 md w3 fr w4 :
  let tmp := os_tmpdir e in
  let id := Date_now e in
  let vp := videoPath_of tmp id in
  let ap := audioPath_of tmp id in
  fetchVideo e url vp (ensure_dir tmp w).2 = (Return tt, w2) →
  call_ffprobe e vp w2 = (Return md, w3) →
  frameLoop e tmp id vp (chooseTimestamps (duration_or_30 md) manual) [] w3
    = (Return fr, w4) →
  extractFrames e url manual w =
    if bool_decide (length fr = 0%nat) then (Throw NoSamples, (cleanupVideo vp w4).2)
    else match run_ffmpeg_mp3 e vp ap w4 with
         | (Return _, w5) => (Return (mkExtraction fr ap), (cleanupVideo vp w5).2)
         | (Throw err, w5) => (Throw err, (cleanupVideo vp w5).2)
         end.
Proof.
  intros tmp id vp ap Hfetch Hprobe Hloop.
  unfold extractFrames. fold tmp id vp.
  destruct (ensure_dir_run tmp w) as [Hdir _].
  rewrite (bind_Return _ _ _ _ _ Hdir).
  unfold try_catch, extractFrames_try.
  rewrite (bind_Return _ _ _ _ _ Hfetch), (bind_Return _ _ _ _ _ Hprobe),
    (bind_Return _ _ _ _ _ Hloop).
  case_bool_decide.
  - unfold throw at 1. by rewrite cleanup_then_throw_run.
  - fold ap. rewrite bind_run.
    destruct (run_ffmpeg_mp3 e vp ap w4) as [[[]|err] w5].
    + rewrite bind_run, cleanupVideo_run. done.
    + by rewrite cleanup_then_throw_run.
Qed.

(** The frame loop touches frame files only. *)
Lemma frameLoop_keeps e tmp id vp ts acc w p :
  ¬ frame_paths tmp id p →
  files (frameLoop e tmp id vp ts acc w).2 !! p = files w !! p.
Proof.
  intros Hp.
  destruct (frameLoop_preserves (frame_paths tmp id) (frame_paths tmp id)
              e tmp id vp ts acc) with (w := w) as (Hkeep & _).
  { intros t _. split; by exists t. }
  by apply Hkeep.
Qed.

Lemma videoPath_not_frame (tmp : string) (id : N) :
  ¬ frame_paths tmp id (videoPath_of tmp id).
Proof. intros [t Ht]. by apply videoPath_ne_framePath in Ht. Qed.

Lemma audioPath_not_frame (tmp : string) (id : N) :
  ¬ frame_paths tmp id (audioPath_of tmp id).
Proof. intros [t Ht]. by apply audioPath_ne_framePath in Ht. Qed.

Lemma call_ffprobe_files e vp w r w' :
  call_ffprobe e vp w = (r, w') → files w' = files w.
Proof. unfold call_ffprobe. destruct (ffprobe e _); intros [= _ <-]; done. Qed.

Lemma run_ffmpeg_mp3_run e vp ap w :
  let r := ffmpeg_mp3 e (files w !! vp) in
  let w' := emit (EvToMp3 ap) (set_files (leave_output ap r) w) in
  run_ffmpeg_mp3 e vp ap w =
    (match tool_error r with
     | Some msg => Throw (FfmpegError msg)
     | None => Return tt
     end, w').
Proof. intros r w'. unfold run_ffmpeg_mp3. fold r w'. by destruct (tool_error r). Qed.

(** ** Frame failures and audio failures *)

(** C4. Once the video is fetched and probed, and no frame file of the
    invocation is in the way: if at least one timestamp yields a frame, the
    failed captures cause no error - the pipeline returns exactly the frames
    of the successful timestamps, in order, when the audio extraction that
    follows succeeds, and the only error it can still throw is that of the
    audio tool; if no timestamp yields a frame, it throws the no-frames error
    and the video file is gone when the error leaves the pipeline. *)
Theorem frame_failures_tolerated e url manual w w2 md w3 :
  let tmp := os_tmpdir e in
  let id := Date_now e in
  let vp := videoPath_of tmp id in
  let ap := audioPath_of tmp id in
  let ts := chooseTimestamps (duration_or_30 md) manual in
  let video := files w3 !! vp in
  let good := captured_frames e video ts in
  fetchVideo e url vp (ensure_dir tmp w).2 = (Return tt, w2) →
  call_ffprobe e vp w2 = (Return md, w3) →
  Forall (λ t, files w3 !! framePath_of tmp id t = None) ts →
  (good ≠ [] → tool_error (ffmpeg_mp3 e video) = None →
     (extractFrames e url manual w).1 = Return (mkExtraction good ap)) ∧
  (good ≠ [] → ∀ msg, tool_error (ffmpeg_mp3 e video) = Some msg →
     (extractFrames e url manual w).1 = Throw (FfmpegError msg)) ∧
  (good = [] →
     (extractFrames e url manual w).1 = Throw NoSamples ∧
     is_NoFramesError NoSamples = true ∧
     files (extractFrames e url manual w).2 !! vp = None).
Proof.
  intros tmp id vp ap ts video good Hfetch Hprobe Hfresh.
  rewrite Forall_forall in Hfresh.
  destruct (frameLoop_spec e tmp id ts [] w3) as (w4 & Hloop & Hkeep).
  { intros t Ht. left. by apply Hfresh. }
  fold vp video in Hloop. simpl in Hloop. fold good in Hloop.
  rewrite (extractFrames_from_loop e url manual w w2 md w3 good w4 Hfetch Hprobe Hloop).
  split; [|split].
  - intros Hgood Haudio. rewrite bool_decide_false by (by destruct good).
    rewrite run_ffmpeg_mp3_run.
    rewrite Hkeep by (intros t _; apply videoPath_ne_framePath).
    fold tmp id vp video. by rewrite Haudio.
  - intros Hgood msg Haudio. rewrite bool_decide_false by (by destruct good).
    rewrite run_ffmpeg_mp3_run.
    rewrite Hkeep by (intros t _; apply videoPath_ne_framePath).
    fold tmp id vp video. by rewrite Haudio.
  - intros ->. rewrite bool_decide_true by done. simpl.
    split; [done|]. split; [done|]. apply cleanupVideo_removes.
Qed.

(** C5. When the audio extraction fails after frames were extracted, the
    invocation fails with the error of the audio tool: no result, hence no
    frame, is returned; the tool was run once; and the video file was
    deleted before the error left the pipeline. *)
Theorem audio_failure_is_fatal e url manual w w2 md w3 fr w4 msg :
  let tmp := os_tmpdir e in
  let id := Date_now e in
  let vp := videoPath_of tmp id in
  let ap := audioPath_of tmp id in
  fetchVideo e url vp (ensure_dir tmp w).2 = (Return tt, w2) →
  call_ffprobe e vp w2 = (Return md, w3) →
  frameLoop e tmp id vp (chooseTimestamps (duration_or_30 md) manual) [] w3
    = (Return fr, w4) →
  fr ≠ [] →
  tool_error (ffmpeg_mp3 e (files w4 !! vp)) = Some msg →
  ∃ w', extractFrames e url manual w = (Throw (FfmpegError msg), w') ∧
        files w' !! vp = None ∧
        log w' = (log w4 ++ [EvToMp3 ap; EvUnlink vp])%list.
Proof.
  intros tmp id vp ap Hfetch Hprobe Hloop Hfr Haudio.
  rewrite (extractFrames_from_loop e url manual w w2 md w3 fr w4 Hfetch Hprobe Hloop).
  rewrite bool_decide_false by (by destruct fr).
  rewrite run_ffmpeg_mp3_run. fold tmp id vp ap. rewrite Haudio.
  eexists. split; [done|]. split; [apply cleanupVideo_removes|].
  rewrite cleanupVideo_run. simpl.
  assert (is_Some (files w4 !! vp)) as Hvideo.
  { pose proof (frameLoop_keeps e tmp id vp
      (chooseTimestamps (duration_or_30 md) manual) [] w3 vp
      (videoPath_not_frame tmp id)) as Hk.
    rewrite Hloop in Hk. simpl in Hk. rewrite Hk.
    rewrite (call_ffprobe_files _ _ _ _ _ Hprobe).
    by eapply fetchVideo_Return_exists. }
  rewrite lookup_leave_output_ne by (apply not_eq_sym, videoPath_ne_audioPath).
  rewrite bool_decide_true by done. simpl. by rewrite <-app_assoc.
Qed.

(** C10. No exit path deletes the audio path: an audio file that is there
    stays there on every run, and when the audio tool fails after leaving
    a partial file, the invocation fails and the partial file remains. *)
Theorem audio_file_is_never_deleted e url manual w :
  let tmp := os_tmpdir e in
  let id := Date_now e in
  let vp := videoPath_of tmp id in
  let ap := audioPath_of tmp id in
  (is_Some (files w !! ap) → is_Some (files (extractFrames e url manual w).2 !! ap)) ∧
  (∀ w2 md w3 fr w4 msg partial,
     fetchVideo e url vp (ensure_dir tmp w).2 = (Return tt, w2) →
     call_ffprobe e vp w2 = (Return md, w3) →
     frameLoop e tmp id vp (chooseTimestamps (duration_or_30 md) manual) [] w3
       = (Return fr, w4) →
     fr ≠ [] →
     ffmpeg_mp3 e (files w4 !! vp) = mkToolRun (Some msg) (Some partial) →
     (extractFrames e url manual w).1 = Throw (FfmpegError msg) ∧
     files (extractFrames e url manual w).2 !! ap = Some partial).
Proof.
  intros tmp id vp ap. split.
  - destruct (extractFrames_preserves e url manual w) as (_ & Hstay & _).
    apply Hstay. intros [Hv|[t Ht]].
    + symmetry in Hv. by apply videoPath_ne_audioPath in Hv.
    + by apply audioPath_ne_framePath in Ht.
  - intros w2 md w3 fr w4 msg partial Hfetch Hprobe Hloop Hfr Haudio.
    rewrite (extractFrames_from_loop e url manual w w2 md w3 fr w4 Hfetch Hprobe Hloop).
    rewrite bool_decide_false by (by destruct fr).
    rewrite run_ffmpeg_mp3_run. fold tmp id vp ap. rewrite Haudio. simpl.
    split; [done|]. rewrite cleanupVideo_run. simpl.
    case_bool_decide; simpl.
    + rewrite lookup_delete_ne by apply videoPath_ne_audioPath.
      apply lookup_insert_eq.
    + apply lookup_insert_eq.
Qed.

(** ** The video file on every exit path *)

Lemma extractFrames_try_Return_removed e url manual tmp id vp x w w' :
  extractFrames_try e url manual tmp id vp w = (Return x, w') →
  files w' !! vp = None.
Proof.
  unfold extractFrames_try. intros H.
  apply bind_Return_inv in H as (u1 & w1 & _ & H).
  apply bind_Return_inv in H as (md & w2 & _ & H).
  apply bind_Return_inv in H as (fr & w3 & _ & H).
  case_bool_decide; [discriminate|].
  apply bind_Return_inv in H as (u2 & w4 & _ & H).
  apply bind_Return_inv in H as (u3 & w5 & Hclean & H).
  cbv [mret M_ret] in H. simplify_eq.
  pose proof (cleanupVideo_removes vp w4) as Hrm. by rewrite Hclean in Hrm.
Qed.

(** X1. Whatever happens - a result, or an error of any stage - no video
    file is left behind: the file system an invocation ends with has no
    file at its video path. *)
Lemma extractFrames_video_removed e url manual w :
  files (extractFrames e url manual w).2 !! videoPath_of (os_tmpdir e) (Date_now e) = None.
Proof.
  unfold extractFrames.
  destruct (ensure_dir_run (os_tmpdir e) w) as [Hdir _].
  rewrite (bind_Return _ _ _ _ _ Hdir). unfold try_catch.
  destruct (extractFrames_try _ _ _ _ _ _ _) as [[x|err] w'] eqn:Htry.
  - simpl. by eapply extractFrames_try_Return_removed.
  - rewrite cleanup_then_throw_run. simpl. apply cleanupVideo_removes.
Qed.

(** ** The Fetcher *)

(** C6. A download whose body is shorter than 1000 bytes ends in a
    download error, whatever the status of the response; with status 200
    and a body stream that finished, the error is the too-small error. *)
Theorem small_download_is_an_error e url dest w status body serr :
  axios_get e url = GetResponse status body serr →
  (length body < 1000)%nat →
  ∃ err w', downloadDirect e url dest w = (Throw err, w') ∧
            is_DownloadError err = true ∧
            (status = 200 → serr = None → err = DownloadTooSmall (length body)).
Proof.
  intros Hget Hsmall. unfold downloadDirect. rewrite bind_run.
  unfold call_axios_get. rewrite Hget.
  case_bool_decide as Hstatus.
  - eexists _, _. split; [done|]. split; [done|]. intros ->. done.
  - rewrite bind_run. unfold pipe_to_file. destruct serr as [msg|].
    + eexists _, _. split; [done|]. split; [done|]. intros _ [=].
    + rewrite bind_run. unfold statSync_size. simpl.
      rewrite lookup_insert_eq. rewrite bool_decide_true by done.
      eexists _, _. split; [done|]. split; done.
Qed.

(** ** The Resolver *)

Local Arguments truthy : simpl never.

Lemma js_or_truthy (a b : option string) : truthy a = true → js_or a b = a.
Proof. unfold js_or. by intros ->. Qed.

Lemma js_or_falsy (a b : option string) : truthy a = false → js_or a b = b.
Proof. unfold js_or. by intros ->. Qed.

Lemma resolveTikTokUrl_run e url w d :
  axios_post e (split_first "?" url) = PostResponse (Some (mkTikwmBody (Some 0) (Some d))) →
  resolveTikTokUrl e url w =
    (match pick_videoUrl d with
     | Some u => if truthy (Some u) then Return u else Throw TikwmFailed
     | None => Throw TikwmFailed
     end, emit (EvPost (split_first "?" url)) w).
Proof.
  intros Hpost. unfold resolveTikTokUrl. rewrite bind_run.
  unfold call_axios_post. rewrite Hpost.
  destruct (pick_videoUrl d) as [u|]; [|done]. by destruct (truthy (Some u)).
Qed.

(** C8. On a successful response of the resolution API, the URL returned
    is the standard play URL whenever there is one - in particular when an
    HD variant is offered too; it is the HD variant only without a play
    URL, and the watermarked variant only without both. *)
Theorem resolver_prefers_standard_play e url w d :
  axios_post e (split_first "?" url) = PostResponse (Some (mkTikwmBody (Some 0) (Some d))) →
  (∀ p h, play d = Some p → hdplay d = Some h → p ≠ "" → h ≠ "" →
     (resolveTikTokUrl e url w).1 = Return p) ∧
  (∀ u, (resolveTikTokUrl e url w).1 = Return u ↔
     (truthy (play d) = true ∧ play d = Some u) ∨
     (truthy (play d) = false ∧ truthy (hdplay d) = true ∧ hdplay d = Some u) ∨
     (truthy (play d) = false ∧ truthy (hdplay d) = false ∧
      truthy (wmplay d) = true ∧ wmplay d = Some u)).
Proof.
  intros Hpost. rewrite (resolveTikTokUrl_run e url w d Hpost). simpl.
  unfold pick_videoUrl. split.
  - intros p h Hp Hh Hpne Hhne.
    assert (truthy (play d) = true) as Ht.
    { rewrite Hp. unfold truthy. by apply negb_true_iff, String.eqb_neq. }
    rewrite !js_or_truthy by (by rewrite ?js_or_truthy). rewrite Hp in Ht |- *. by rewrite Ht.
  - intros u.
    destruct (truthy (play d)) eqn:Tp.
    { rewrite !js_or_truthy by (by rewrite ?js_or_truthy).
      destruct (play d) as [p|]; [|done]. rewrite Tp. intuition congruence. }
    rewrite (js_or_falsy (play d)) by done.
    destruct (truthy (hdplay d)) eqn:Th.
    { rewrite js_or_truthy by done.
      destruct (hdplay d) as [h|]; [|done]. rewrite Th. intuition congruence. }
    rewrite js_or_falsy by done.
    destruct (wmplay d) as [m|]; [|intuition congruence].
    destruct (truthy (Some m)) eqn:Tw; intuition congruence.
Qed.

(** ** The fallback to the subprocess downloader *)

Lemma downloadWithYtDlp_run e url dest w :
  downloadWithYtDlp e url dest w =
    match available_yt_dlp e (files w) with
    | Some bin => exec_yt_dlp e bin url dest (after_lookup e w)
    | None => (Throw YtDlpNotAvailable, after_lookup e w)
    end.
Proof.
  unfold downloadWithYtDlp, available_yt_dlp, after_lookup.
  rewrite bind_run. unfold existsSync. case_bool_decide; rewrite bind_run.
  - cbv [mret M_ret]. by destruct (truthy (Some (localBin e))).
  - unfold execSync_which. destruct (which_yt_dlp e) as [bin|]; [|done].
    by destruct (truthy (Some bin)).
Qed.

Lemma exec_yt_dlp_log e bin url dest w :
  log (exec_yt_dlp e bin url dest w).2 = (log w ++ [EvYtDlp bin url dest])%list.
Proof. unfold exec_yt_dlp. by destruct (tool_error _). Qed.





(** ** Names of transient files across invocations *)

Lemma elem_of_transient_paths tmp id ts p :
  p ∈ transient_paths tmp id ts ↔
  p = videoPath_of tmp id ∨ p = audioPath_of tmp id ∨
  ∃ t, t ∈ ts ∧ p = framePath_of tmp id t.
Proof.
  unfold transient_paths. rewrite !elem_of_cons, list_elem_of_fmap.
  split; intros [?|[?|(t & ? & ?)]]; eauto.
Qed.

(** C9, as the code has it. Every transient file name embeds the clock
    reading the invocation took at its start; two invocations whose
    readings differ never produce the same path in a shared directory. *)
Theorem transient_names_separate tmp id1 id2 ts1 ts2 p :
  id1 ≠ id2 →
  p ∈ transient_paths tmp id1 ts1 → p ∉ transient_paths tmp id2 ts2.
Proof.
  intros Hid H1 H2.
  apply elem_of_transient_paths in H1, H2.
  destruct H1 as [->|[->|(t1 & _ & ->)]], H2 as [H2|[H2|(t2 & _ & H2)]].
  - by apply videoPath_of_inj in H2.
  - by apply videoPath_ne_audioPath in H2.
  - by apply videoPath_ne_framePath in H2.
  - symmetry in H2. by apply videoPath_ne_audioPath in H2.
  - by apply audioPath_of_inj in H2.
  - by apply audioPath_ne_framePath in H2.
  - symmetry in H2. by apply videoPath_ne_framePath in H2.
  - symmetry in H2. by apply audioPath_ne_framePath in H2.
  - by apply framePath_of_inj in H2 as [? _].
Qed.

Lemma transient_names_separate_witness :
  "/tmp/frame_1700000000000_2.jpg" ∉ transient_paths "/tmp" 1700000000001 [0; 2].
Proof.
  apply (transient_names_separate "/tmp" 1700000000000 1700000000001 [0; 2] [0; 2]).
  - lia.
  - vm_compute. right. right. right. left.
Defined.

(** ** The manual override: the timestamps the loop works on *)

Lemma seek_inputs_app (l k : list Event) :
  seek_inputs (l ++ k) = (seek_inputs l ++ seek_inputs k)%list.
Proof. apply omap_app. Qed.

Lemma seek_inputs_emit (ev : Event) (w : World) :
  seek_inputs (log (emit ev w)) = (seek_inputs (log w) ++ seek_inputs [ev])%list.
Proof. apply seek_inputs_app. Qed.

Lemma after_seek_seek_inputs e mode vp t fp w :
  seek_inputs (log (after_seek e mode vp t fp w))
  = (seek_inputs (log w) ++ match mode with SeekInput => [t] | Seek => [] end)%list.
Proof. unfold after_seek. rewrite seek_inputs_emit. by destruct mode. Qed.

Lemma frameStep_seek_inputs e tmp id acc t w :
  seek_inputs (log (frameStep e tmp id (videoPath_of tmp id) acc t w).2)
  = (seek_inputs (log w) ++ [t])%list.
Proof.
  unfold frameStep. unfold try_catch at 1. rewrite bind_run.
  rewrite captureFrame_run by apply videoPath_ne_framePath.
  set (fp := framePath_of tmp id t). set (vp := videoPath_of tmp id).
  pose proof (after_seek_seek_inputs e SeekInput vp t fp w) as H1.
  pose proof (after_seek_seek_inputs e Seek vp t fp (after_seek e SeekInput vp t fp w)) as H2.
  rewrite H1 in H2. simpl in H1, H2. rewrite app_nil_r in H2.
  destruct (tool_error (ffmpeg_frame e SeekInput (files w !! vp) t)).
  - destruct (tool_error (ffmpeg_frame e Seek (files w !! vp) t)); simpl; [done|].
    rewrite collect_run. destruct (files _ !! fp); simpl; [|done].
    rewrite seek_inputs_app, H2. apply app_nil_r.
  - rewrite collect_run. destruct (files _ !! fp); simpl; [|done].
    rewrite seek_inputs_app, H1. apply app_nil_r.
Qed.

Lemma frameLoop_seek_inputs e tmp id ts acc w :
  seek_inputs (log (frameLoop e tmp id (videoPath_of tmp id) ts acc w).2)
  = (seek_inputs (log w) ++ ts)%list.
Proof.
  revert acc w. induction ts as [|t ts IH]; intros acc w; simpl.
  - by rewrite app_nil_r.
  - destruct (frameStep_returns e tmp id (videoPath_of tmp id) acc t w)
      as (acc' & w1 & Hstep).
    rewrite (bind_Return _ _ _ _ _ Hstep), IH.
    pose proof (frameStep_seek_inputs e tmp id acc t w) as Hs.
    rewrite Hstep in Hs. simpl in Hs. rewrite Hs. by rewrite <-app_assoc.
Qed.

Lemma cleanupVideo_seek_inputs vp w :
  seek_inputs (log (cleanupVideo vp w).2) = seek_inputs (log w).
Proof.
  rewrite cleanupVideo_run. simpl. case_bool_decide; [|done].
  rewrite seek_inputs_emit. apply app_nil_r.
Qed.

(** C3, as the code has it. A manual override bypasses the Sampler and is
    used as it is: the captures the pipeline attempts are those of the
    override, entry by entry and in its order; no entry is compared with the
    duration. *)
Theorem override_used_verbatim e url override w w2 md w3 :
  let tmp := os_tmpdir e in
  let vp := videoPath_of tmp (Date_now e) in
  fetchVideo e url vp (ensure_dir tmp w).2 = (Return tt, w2) →
  call_ffprobe e vp w2 = (Return md, w3) →
  chooseTimestamps (duration_or_30 md) (Some override) = override ∧
  seek_inputs (log (extractFrames e url (Some override) w).2)
  = (seek_inputs (log w3) ++ override)%list.
Proof.
  intros tmp vp Hfetch Hprobe. split; [done|].
  destruct (frameLoop_returns e tmp (Date_now e) vp override [] w3) as (fr & w4 & Hloop).
  rewrite (extractFrames_from_loop e url (Some override) w w2 md w3 fr w4 Hfetch Hprobe Hloop).
  pose proof (frameLoop_seek_inputs e tmp (Date_now e) override [] w3) as Hlog.
  fold vp in Hlog. rewrite Hloop in Hlog. simpl in Hlog.
  case_bool_decide; simpl.
  - by rewrite cleanupVideo_seek_inputs.
  - rewrite run_ffmpeg_mp3_run.
    destruct (tool_error _); simpl;
      rewrite cleanupVideo_seek_inputs, seek_inputs_emit; simpl;
      rewrite Hlog; apply app_nil_r.
Qed.

(** ** Runs *)

(** The nominal run: five frames, and only the audio file is left. *)
Example nominal_run :
  let run := extractFrames (server every_frame_ok audio_ok) direct_url None w0 in
  run.1 = Return (mkExtraction (demo_frames [0; 1; 2; 5; 9]) "/tmp/audio_1700000000000.mp3") ∧
  files run.2 = {[ "/tmp/audio_1700000000000.mp3" := mp3 ]}.
Proof. vm_compute. done. Qed.

(** Every capture fails: the error is the no-frames error, and nothing is
    left on the disk. *)
Example all_captures_fail :
  let run := extractFrames (server no_frame_ok audio_ok) direct_url None w0 in
  run.1 = Throw NoSamples ∧ files run.2 = ∅ ∧
  seek_inputs (log run.2) = [0; 1; 2; 5; 9].
Proof. vm_compute. done. Qed.

(** C2. A capture that fails after it wrote to its frame file leaves that
    file behind: the iteration is skipped without a cleanup. Here both seeks
    fail at second 2 on a truncated image; the run succeeds with the four
    other frames, the video file is gone, and the directory holds the audio
    file and the frame file of second 2. *)
Theorem failed_capture_leaves_frame_file :
  let run := extractFrames (server truncated_at_2 audio_ok) direct_url None w0 in
  run.1 = Return (mkExtraction (demo_frames [0; 1; 5; 9]) "/tmp/audio_1700000000000.mp3") ∧
  files run.2 !! videoPath_of "/tmp" 1700000000000 = None ∧
  files run.2 !! framePath_of "/tmp" 1700000000000 2 = Some [xff; xd8] ∧
  files run.2 = {[ "/tmp/audio_1700000000000.mp3" := mp3;
                   "/tmp/frame_1700000000000_2.jpg" := [xff; xd8] ]}.
Proof. vm_compute. done. Qed.

(** The probe reports 10 seconds; the override entries 10 and 100 are not
    below it, and the pipeline captures frames there all the same. *)
Lemma override_not_filtered :
  let run := extractFrames (server every_frame_ok audio_ok) direct_url (Some [0; 10; 100]) w0 in
  filter (λ t, JS.lt (inject_Z t) 10 = true) [0; 10; 100] = [0] ∧
  chooseTimestamps 10 (Some [0; 10; 100]) ≠
    filter (λ t, JS.lt (inject_Z t) 10 = true) [0; 10; 100] ∧
  run.1 = Return (mkExtraction (demo_frames [0; 10; 100]) "/tmp/audio_1700000000000.mp3").
Proof. vm_compute. done. Qed.

(** The resolution API is down and there is no yt-dlp: both strategies
    are exhausted, and the invocation ends with the error of the missing
    downloader. *)
Lemma missing_yt_dlp_fails_the_invocation :
  (extractFrames (server every_frame_ok audio_ok) tiktok_url None w0).1
  = Throw YtDlpNotAvailable.
Proof. vm_compute. done. Qed.

(** Two invocations on different URLs that read the same clock value use
    the same video file and hand out the same audio path. *)
Lemma same_millisecond_invocations_collide :
  let e := server every_frame_ok audio_ok in
  let run1 := extractFrames e direct_url None w0 in
  let run2 := extractFrames e other_url None w0 in
  direct_url ≠ other_url ∧
  log run1.2 !! 1%nat = Some (EvGet direct_url) ∧
  log run2.2 !! 1%nat = Some (EvGet other_url) ∧
  last (log run1.2) = Some (EvUnlink "/tmp/socially_video_1700000000000.mp4") ∧
  last (log run2.2) = Some (EvUnlink "/tmp/socially_video_1700000000000.mp4") ∧
  ∃ x1 x2, run1.1 = Return x1 ∧ run2.1 = Return x2 ∧ audioPath x1 = audioPath x2.
Proof. vm_compute. repeat split; [discriminate|]. by eexists _, _. Qed.

(** ** The statements above at concrete runs *)

Lemma override_used_verbatim_witness :
  seek_inputs (log (extractFrames (server every_frame_ok audio_ok) direct_url
                      (Some [0; 10; 100]) w0).2) = [0; 10; 100].
Proof.
  destruct (override_used_verbatim (server every_frame_ok audio_ok) direct_url
              [0; 10; 100] w0
              (fetched (server every_frame_ok audio_ok) direct_url) (Some 10%Q)
              (probed (server every_frame_ok audio_ok) direct_url)) as [_ H].
  - vm_compute. reflexivity.
  - vm_compute. reflexivity.
  - rewrite H. vm_compute. reflexivity.
Defined.

(** Two of five captures fail, three frames are returned. *)
Lemma frame_failures_tolerated_witness :
  (extractFrames (server two_of_five_fail audio_ok) direct_url None w0).1
  = Return (mkExtraction (demo_frames [0; 1; 5]) "/tmp/audio_1700000000000.mp3").
Proof.
  destruct (frame_failures_tolerated (server two_of_five_fail audio_ok) direct_url
              None w0
              (fetched (server two_of_five_fail audio_ok) direct_url) (Some 10%Q)
              (probed (server two_of_five_fail audio_ok) direct_url)) as [H _].
  - vm_compute. reflexivity.
  - vm_compute. reflexivity.
  - repeat (constructor; [vm_compute; reflexivity|]). constructor.
  - rewrite H.
    + vm_compute. reflexivity.
    + vm_compute. discriminate.
    + vm_compute. reflexivity.
Defined.

Lemma audio_failure_is_fatal_witness :
  (extractFrames (server every_frame_ok audio_breaks) direct_url None w0).1
  = Throw (FfmpegError "Output file does not contain any stream").
Proof.
  destruct (audio_failure_is_fatal (server every_frame_ok audio_breaks) direct_url
              None w0
              (fetched (server every_frame_ok audio_breaks) direct_url) (Some 10%Q)
              (probed (server every_frame_ok audio_breaks) direct_url)
              (demo_frames [0; 1; 2; 5; 9])
              (looped (server every_frame_ok audio_breaks) direct_url [0; 1; 2; 5; 9])
              "Output file does not contain any stream") as (w' & H & _).
  - vm_compute. reflexivity.
  - vm_compute. reflexivity.
  - vm_compute. reflexivity.
  - vm_compute. discriminate.
  - vm_compute. reflexivity.
  - rewrite H. reflexivity.
Defined.

Lemma audio_file_is_never_deleted_witness :
  files (extractFrames (server every_frame_ok audio_breaks) direct_url None w0).2
    !! "/tmp/audio_1700000000000.mp3" = Some [x49; x44].
Proof.
  destruct (audio_file_is_never_deleted (server every_frame_ok audio_breaks)
              direct_url None w0) as [_ H].
  destruct (H (fetched (server every_frame_ok audio_breaks) direct_url) (Some 10%Q)
              (probed (server every_frame_ok audio_breaks) direct_url)
              (demo_frames [0; 1; 2; 5; 9])
              (looped (server every_frame_ok audio_breaks) direct_url [0; 1; 2; 5; 9])
              "Output file does not contain any stream" [x49; x44]) as [_ Hfile].
  - vm_compute. reflexivity.
  - vm_compute. reflexivity.
  - vm_compute. reflexivity.
  - vm_compute. discriminate.
  - vm_compute. reflexivity.
  - exact Hfile.
Defined.

(** A 200 response of 999 bytes is a download error. *)
Lemma small_download_is_an_error_witness :
  ∃ err w',
    downloadDirect (with_get (GetResponse 200 (replicate 999 x2a) None)
                      (server every_frame_ok audio_ok))
      direct_url "/tmp/socially_video_1700000000000.mp4" w0 = (Throw err, w') ∧
    is_DownloadError err = true ∧
    (200 = 200 → @None string = None → err = DownloadTooSmall (length (replicate 999 x2a))).
Proof.
  apply (small_download_is_an_error
           (with_get (GetResponse 200 (replicate 999 x2a) None)
              (server every_frame_ok audio_ok))
           direct_url "/tmp/socially_video_1700000000000.mp4" w0 200
           (replicate 999 x2a) None).
  - reflexivity.
  - apply Nat.ltb_lt. vm_compute. reflexivity.
Defined.


Lemma resolver_prefers_standard_play_witness :
  (resolveTikTokUrl
     (with_post (PostResponse (Some (mkTikwmBody (Some 0) (Some three_urls))))
        (server every_frame_ok audio_ok))
     tiktok_url w0).1 = Return "https://v.example.com/play.mp4".
Proof.
  destruct (resolver_prefers_standard_play
              (with_post (PostResponse (Some (mkTikwmBody (Some 0) (Some three_urls))))
                 (server every_frame_ok audio_ok))
              tiktok_url w0 three_urls) as [H _].
  - reflexivity.
  - apply (H "https://v.example.com/play.mp4" "https://v.example.com/hd.mp4").
    + reflexivity.
    + reflexivity.
    + discriminate.
    + discriminate.
Defined.

(** ** The earlier variants *)

(** The earlier Fetcher reports success on the 999 bytes. *)
Remark earlier_download_accepts_small_file :
  (Earlier.downloadDirect
     (with_get (GetResponse 200 (replicate 999 x2a) None) (server every_frame_ok audio_ok))
     direct_url "/tmp/video_1700000000000.mp4" w0).1 = Return tt.
Proof. reflexivity. Qed.

(** The earlier Resolver picks the HD variant. *)
Remark earlier_resolver_prefers_hd :
  Earlier.pick_videoUrl three_urls = Some "https://v.example.com/hd.mp4" ∧
  pick_videoUrl three_urls = Some "https://v.example.com/play.mp4".
Proof. split; reflexivity. Qed.

(** The earlier frame names depend on the timestamp alone. *)
Remark earlier_frame_name :
  Earlier.framePath_of "/tmp" 3 = "/tmp/frame_3s.jpg".
Proof. reflexivity. Qed.

(** * Further properties of the code *)

(** ** What a returning run went through *)

Lemma frameStep_result e tmp id vp acc t w :
  ∃ acc' w', frameStep e tmp id vp acc t w = (Return acc', w') ∧
    (acc' = acc ∨
     ∃ bytes, acc' = (acc ++ [mkFrame t (toString_base64 e bytes) "image/jpeg"])%list).
Proof.
  unfold frameStep. unfold try_catch at 1. rewrite bind_run.
  destruct (captureFrame e vp t (framePath_of tmp id t) w) as [[[]|err] w1].
  - rewrite collect_run. destruct (files w1 !! framePath_of tmp id t) as [bytes|].
    + eexists _, _. split; [done|]. right. by exists bytes.
    + eexists _, _. split; [done|]. by left.
  - eexists _, _. split; [done|]. by left.
Qed.

Lemma frameLoop_frames e tmp id vp ts acc w :
  ∃ new, (frameLoop e tmp id vp ts acc w).1 = Return (acc ++ new)%list ∧
         map timestamp new `sublist_of` ts ∧
         Forall (λ f, mimeType f = "image/jpeg") new.
Proof.
  revert acc w. induction ts as [|t ts IH]; intros acc w; simpl.
  - exists []. by rewrite app_nil_r.
  - destruct (frameStep_result e tmp id vp acc t w) as (acc' & w1 & Hstep & [->|[bytes ->]]);
      rewrite (bind_Return _ _ _ _ _ Hstep).
    + destruct (IH acc w1) as (new & Hrun & Hsub & Hmime).
      exists new. split; [done|]. split; [by apply sublist_cons|done].
    + destruct (IH (acc ++ [mkFrame t (toString_base64 e bytes) "image/jpeg"])%list w1)
        as (new & Hrun & Hsub & Hmime).
      exists (mkFrame t (toString_base64 e bytes) "image/jpeg" :: new).
      split; [by rewrite Hrun, <-app_assoc|].
      split; [by apply sublist_skip|by constructor].
Qed.

(** A run that returns went through every stage. *)
Lemma extractFrames_Return_inv e url manual w x w' :
  let tmp := os_tmpdir e in
  let id := Date_now e in
  let vp := videoPath_of tmp id in
  extractFrames e url manual w = (Return x, w') →
  ∃ w2 md w3 w4,
    fetchVideo e url vp (ensure_dir tmp w).2 = (Return tt, w2) ∧
    call_ffprobe e vp w2 = (Return md, w3) ∧
    frameLoop e tmp id vp (chooseTimestamps (duration_or_30 md) manual) [] w3
      = (Return (frames x), w4) ∧
    frames x ≠ [] ∧
    audioPath x = audioPath_of tmp id ∧
    tool_error (ffmpeg_mp3 e (files w4 !! vp)) = None ∧
    w' = (cleanupVideo vp (emit (EvToMp3 (audioPath_of tmp id))
            (set_files (leave_output (audioPath_of tmp id) (ffmpeg_mp3 e (files w4 !! vp))) w4))).2.
Proof.
  intros tmp id vp Hrun.
  destruct (fetchVideo e url vp (ensure_dir tmp w).2) as [[[]|err1] w2] eqn:Hfetch.
  2:{ unfold extractFrames in Hrun. fold tmp id vp in Hrun.
      destruct (ensure_dir_run tmp w) as [Hdir _].
      rewrite (bind_Return _ _ _ _ _ Hdir) in Hrun.
      assert (extractFrames_try e url manual tmp id vp (ensure_dir tmp w).2
              = (Throw err1, w2)) as Htry.
      { unfold extractFrames_try. by rewrite (bind_Throw _ _ _ _ _ Hfetch). }
      rewrite (try_catch_Throw _ _ _ _ _ Htry), cleanup_then_throw_run in Hrun.
      discriminate. }
  destruct (call_ffprobe e vp w2) as [[md|err2] w3] eqn:Hprobe.
  2:{ unfold extractFrames in Hrun. fold tmp id vp in Hrun.
      destruct (ensure_dir_run tmp w) as [Hdir _].
      rewrite (bind_Return _ _ _ _ _ Hdir) in Hrun.
      assert (extractFrames_try e url manual tmp id vp (ensure_dir tmp w).2
              = (Throw err2, w3)) as Htry.
      { unfold extractFrames_try.
        by rewrite (bind_Return _ _ _ _ _ Hfetch), (bind_Throw _ _ _ _ _ Hprobe). }
      rewrite (try_catch_Throw _ _ _ _ _ Htry), cleanup_then_throw_run in Hrun.
      discriminate. }
  destruct (frameLoop_returns e tmp id vp
              (chooseTimestamps (duration_or_30 md) manual) [] w3) as (fr & w4 & Hloop).
  rewrite (extractFrames_from_loop e url manual w w2 md w3 fr w4 Hfetch Hprobe Hloop) in Hrun.
  case_bool_decide as Hlen; [discriminate|].
  rewrite run_ffmpeg_mp3_run in Hrun. fold tmp id vp in Hrun.
  destruct (tool_error (ffmpeg_mp3 e (files w4 !! vp))) eqn:Haudio; [discriminate|].
  injection Hrun as <- <-. simpl.
  exists w2, md, w3, w4. repeat split; try done.
  by destruct fr.
Qed.

(** ** Extra properties of [extractFrames] *)


(** X3. The shape of a result. When [extractFrames] returns, the result
    has at least one frame, every frame carries the MIME type image/jpeg,
    the audio path is the invocation's own [audio_<id>.mp3], and the
    timestamps of the frames are, in order, a sub-list of the timestamps
    chosen for the duration that the probe reported on the fetched video
    (or for the override); without an override there are between one and
    five frames. *)
Theorem extractFrames_result_shape e url manual w x :
  let tmp := os_tmpdir e in
  let id := Date_now e in
  let vp := videoPath_of tmp id in
  let w2 := (fetchVideo e url vp (ensure_dir tmp w).2).2 in
  (extractFrames e url manual w).1 = Return x →
  frames x ≠ [] ∧
  audioPath x = audioPath_of tmp id ∧
  Forall (λ f, mimeType f = "image/jpeg") (frames x) ∧
  (∃ md, ffprobe e (files w2 !! vp) = inr md ∧
         map timestamp (frames x) `sublist_of` chooseTimestamps (duration_or_30 md) manual) ∧
  (manual = None → (1 ≤ length (frames x) ≤ 5)%nat).
Proof.
  intros tmp id vp w2 Hrun.
  destruct (extractFrames e url manual w) as [r w'] eqn:Heq. simpl in Hrun. subst r.
  apply extractFrames_Return_inv in Heq
    as (w2' & md & w3 & w4 & Hfetch & Hprobe & Hloop & Hne & Hap & _ & _).
  fold tmp id vp in Hfetch, Hprobe, Hloop, Hap.
  assert (w2 = w2') as <- by (unfold w2; by rewrite Hfetch).
  assert (ffprobe e (files w2 !! vp) = inr md) as Hmd.
  { unfold call_ffprobe in Hprobe. destruct (ffprobe e _); by simplify_eq. }
  destruct (frameLoop_frames e tmp id vp
              (chooseTimestamps (duration_or_30 md) manual) [] w3)
    as (new & Hfr & Hsub & Hmime).
  rewrite Hloop in Hfr. simpl in Hfr. injection Hfr as Hfr. rewrite Hfr in *.
  split; [done|]. split; [done|]. split; [done|]. split; [by exists md|].
  intros ->. split; [destruct new; [done|simpl; lia]|].
  apply sublist_length in Hsub. rewrite length_map in Hsub.
  etrans; [exact Hsub|]. simpl. unfold defaultTimestamps, sampleWith, JS.slice0.
  rewrite length_take. lia.
Qed.


(** ** How many timestamps the Sampler yields *)

Lemma Qfloor_lt_step (x y : Q) : (x + 1 <= y)%Q → (Qfloor x < Qfloor y)%Z.
Proof.
  intros H. rewrite Zlt_Qlt.
  pose proof (Qfloor_le x) as Hx. pose proof (Qlt_floor y) as Hy.
  rewrite inject_Z_plus in Hy. change (inject_Z 1) with 1%Q in Hy. lra.
Qed.

Lemma Qfloor_unit (x : Q) : (0 <= x)%Q → (x < 1)%Q → Qfloor x = 0.
Proof.
  intros H0 H1.
  pose proof (Qfloor_le x) as Hx. pose proof (Qlt_floor x) as Hy.
  rewrite inject_Z_plus in Hy. change (inject_Z 1) with 1%Q in Hy.
  assert (Qfloor x < 1)%Z by (rewrite Zlt_Qlt; change (inject_Z 1) with 1%Q; lra).
  assert (-1 < Qfloor x)%Z by (rewrite Zlt_Qlt; change (inject_Z (-1)) with (-1)%Q; lra).
  lia.
Qed.

Lemma foldl_Set_add_fresh (l s : list Z) :
  StronglySorted Z.lt (s ++ l) → foldl JS.Set_add s l = (s ++ l)%list.
Proof.
  revert s. induction l as [|x l IH]; intros s Hs; simpl.
  - by rewrite app_nil_r.
  - assert (x ∉ s) as Hx.
    { intros Hin. apply StronglySorted_app in Hs as (Hlt & _ & _).
      assert (x < x) by (apply Hlt; [done|left]). lia. }
    unfold JS.Set_add at 2. rewrite decide_False by done.
    rewrite IH; rewrite <-app_assoc; done.
Qed.

Lemma Set_of_sorted_id (l : list Z) : StronglySorted Z.lt l → JS.Set_of l = l.
Proof. intros Hl. unfold JS.Set_of. by rewrite foldl_Set_add_fresh. Qed.

Lemma foldl_Set_add_length (l s : list Z) :
  (length (foldl JS.Set_add s l) ≤ length s + length l)%nat.
Proof.
  revert s. induction l as [|x l IH]; intros s; simpl; [lia|].
  etrans; [apply IH|]. unfold JS.Set_add. case_decide; [lia|].
  rewrite length_app. simpl. lia.
Qed.

Lemma filter_all {A} (P : A → Prop) `{!∀ x, Decision (P x)} (l : list A) :
  Forall P l → filter P l = l.
Proof.
  induction 1 as [|x l Hx _ IH]; [done|]. by rewrite filter_cons_True, IH.
Qed.

Lemma ascending_five (a b c d e : Z) :
  a < b → b < c → c < d → d < e → StronglySorted Z.lt [a; b; c; d; e].
Proof. intros. repeat (constructor; try lia). Qed.

(** X4. Without an override and for a positive duration, the sampler
    yields five timestamps exactly when the duration is at least ten
    seconds; from ten seconds on no candidate is a duplicate or filtered
    out, so the list is 0, floor(min(2, 0.1 d)), floor(0.25 d),
    floor(0.5 d), floor(0.9 d) as computed. *)
Theorem sampler_yields_five_iff (d : Q) :
  (0 < d)%Q →
  (length (chooseTimestamps d None) = 5%nat ↔ (10 <= d)%Q) ∧
  ((10 <= d)%Q →
   chooseTimestamps d None =
     [0; Qfloor (Qmin 2 (d * 0.1)); Qfloor (d * 0.25); Qfloor (d * 0.5); Qfloor (d * 0.9)]).
Proof.
  intros Hd.
  assert ((10 <= d)%Q →
    chooseTimestamps d None =
      [0; Qfloor (Qmin 2 (d * 0.1)); Qfloor (d * 0.25); Qfloor (d * 0.5); Qfloor (d * 0.9)])
    as Hlong.
  { intros H10. unfold chooseTimestamps, defaultTimestamps, sampleWith, candidates, JS.slice0.
    cbn [map]. unfold JS.floor, JS.min. change (Qfloor 0) with 0.
    set (f1 := Qfloor (Qmin 2 (d * 0.1))). set (f2 := Qfloor (d * 0.25)).
    set (f3 := Qfloor (d * 0.5)). set (f4 := Qfloor (d * 0.9)).
    assert (1 <= Qmin 2 (d * 0.1))%Q as Hm by (apply Q.min_glb; lra).
    assert (Qmin 2 (d * 0.1) <= d * 0.1)%Q as Hm' by apply Q.le_min_r.
    assert (0 < f1) as H01.
    { change 0 with (Qfloor 0). apply Qfloor_lt_step. lra. }
    assert (f1 < f2) as H12 by (apply Qfloor_lt_step; lra).
    assert (f2 < f3) as H23 by (apply Qfloor_lt_step; lra).
    assert (f3 < f4) as H34 by (apply Qfloor_lt_step; lra).
    assert (inject_Z f4 < d)%Q as H4d.
    { pose proof (Qfloor_le (d * 0.9)) as Hle. fold f4 in Hle. lra. }
    assert (∀ t, t <= f4 → JS.lt (inject_Z t) d = true) as Hbelow.
    { intros t Ht. apply JS_lt_spec. eapply Qle_lt_trans; [|exact H4d].
      by rewrite <-Zle_Qle. }
    clearbody f1 f2 f3 f4.
    rewrite Set_of_sorted_id by (by apply ascending_five).
    rewrite filter_all; [done|].
    repeat (apply Forall_cons; split; [apply Hbelow; lia|]). constructor. }
  split; [|done]. split.
  - intros Hlen. destruct (Qlt_le_dec d 10) as [Hshort|]; [|done]. exfalso.
    unfold chooseTimestamps, defaultTimestamps, sampleWith, candidates, JS.slice0 in Hlen.
    cbn [map] in Hlen. unfold JS.floor, JS.min in Hlen. change (Qfloor 0) with 0 in Hlen.
    rewrite (Qfloor_unit (Qmin 2 (d * 0.1))) in Hlen.
    2:{ apply Q.min_glb; lra. }
    2:{ eapply Qle_lt_trans; [apply Q.le_min_r|lra]. }
    match type of Hlen with
    | length (take 5 (filter ?P (JS.Set_of (0 :: 0 :: ?r)))) = _ =>
        pose proof (foldl_Set_add_length r [0]) as Hbound;
        pose proof (length_filter P (foldl JS.Set_add [0] r)) as Hf;
        change (JS.Set_of (0 :: 0 :: r)) with (foldl JS.Set_add [0] r) in Hlen
    end.
    rewrite length_take in Hlen. cbn [length] in Hbound. lia.
  - intros H10. by rewrite Hlong.
Qed.

Lemma sampler_yields_five_iff_witness :
  length (chooseTimestamps 10 None) = 5%nat ∧ length (chooseTimestamps 9.9 None) ≠ 5%nat.
Proof.
  split.
  - apply (sampler_yields_five_iff 10); reflexivity || discriminate.
  - intros H. apply (sampler_yields_five_iff 9.9) in H; [|reflexivity].
    revert H. vm_compute. intros H. by apply H.
Defined.

(** ** The frame loop *)

(** X5. The frame loop never throws and never stops early: it returns the
    frames it had plus new ones, it has started a fast-seek capture at
    every timestamp of its list, in order and once each, and the new
    frames belong to a sub-list of those timestamps - at most one frame per
    timestamp. *)
Theorem frameLoop_attempts_every_timestamp e tmp id ts acc w :
  ∃ new w',
    frameLoop e tmp id (videoPath_of tmp id) ts acc w = (Return (acc ++ new)%list, w') ∧
    seek_inputs (log w') = (seek_inputs (log w) ++ ts)%list ∧
    map timestamp new `sublist_of` ts ∧
    (length new ≤ length ts)%nat.
Proof.
  destruct (frameLoop_frames e tmp id (videoPath_of tmp id) ts acc w)
    as (new & Hrun & Hsub & _).
  pose proof (frameLoop_seek_inputs e tmp id ts acc w) as Hlog.
  destruct (frameLoop e tmp id (videoPath_of tmp id) ts acc w) as [r w'].
  simpl in *. subst r. exists new, w'. split; [done|]. split; [done|]. split; [done|].
  apply sublist_length in Hsub. by rewrite length_map in Hsub.
Qed.

(** X6. The three ways of one iteration of the frame loop. If the fast
    seek succeeds and leaves an image, the image is pushed as a frame, the
    accurate seek is not run, and the frame file is deleted; if the fast
    seek fails and the accurate seek succeeds, the second image is pushed
    and the file deleted; if both fail, the frames are unchanged, nothing
    is deleted and the iteration still returns. *)
Theorem frameStep_traces e tmp id acc t w :
  let vp := videoPath_of tmp id in
  let fp := framePath_of tmp id t in
  let video := files w !! vp in
  (∀ b, ffmpeg_frame e SeekInput video t = mkToolRun None (Some b) →
     ∃ w', frameStep e tmp id vp acc t w
             = (Return (acc ++ [mkFrame t (toString_base64 e b) "image/jpeg"])%list, w') ∧
           log w' = (log w ++ [EvSeekInput t fp; EvUnlink fp])%list ∧
           files w' !! fp = None) ∧
  (∀ msg b, tool_error (ffmpeg_frame e SeekInput video t) = Some msg →
     ffmpeg_frame e Seek video t = mkToolRun None (Some b) →
     ∃ w', frameStep e tmp id vp acc t w
             = (Return (acc ++ [mkFrame t (toString_base64 e b) "image/jpeg"])%list, w') ∧
           log w' = (log w ++ [EvSeekInput t fp; EvSeek t fp; EvUnlink fp])%list ∧
           files w' !! fp = None) ∧
  (∀ msg1 msg2, tool_error (ffmpeg_frame e SeekInput video t) = Some msg1 →
     tool_error (ffmpeg_frame e Seek video t) = Some msg2 →
     ∃ w', frameStep e tmp id vp acc t w = (Return acc, w') ∧
           log w' = (log w ++ [EvSeekInput t fp; EvSeek t fp])%list).
Proof.
  intros vp fp video.
  assert (vp ≠ fp) as Hne by apply videoPath_ne_framePath.
  pose proof (files_after_seek e SeekInput vp t fp w) as Hf1.
  pose proof (files_after_seek e Seek vp t fp (after_seek e SeekInput vp t fp w)) as Hf2.
  rewrite (files_after_seek_ne e SeekInput vp t fp w vp) in Hf2 by done.
  fold video in Hf1, Hf2.
  assert (∀ acc', frameStep e tmp id vp acc' t w =
    match
      match tool_error (ffmpeg_frame e SeekInput video t) with
      | None => (Return tt, after_seek e SeekInput vp t fp w)
      | Some _ =>
          match tool_error (ffmpeg_frame e Seek video t) with
          | None => (Return tt, after_seek e Seek vp t fp (after_seek e SeekInput vp t fp w))
          | Some msg =>
              (Throw (FfmpegError msg),
               after_seek e Seek vp t fp (after_seek e SeekInput vp t fp w))
          end
      end
    with
    | (Return _, w1) =>
        match files w1 !! fp with
        | Some bytes =>
            (Return (acc' ++ [mkFrame t (toString_base64 e bytes) "image/jpeg"])%list,
             emit (EvUnlink fp) (set_files (delete fp) w1))
        | None => (Return acc', w1)
        end
    | (Throw _, w1) => (Return acc', w1)
    end) as Hstep.
  { intros acc'. unfold frameStep. unfold try_catch at 1. fold fp. rewrite bind_run.
    rewrite captureFrame_run by done. fold video.
    destruct (tool_error (ffmpeg_frame e SeekInput video t));
      [destruct (tool_error (ffmpeg_frame e Seek video t))|]; try reflexivity;
      rewrite collect_run;
      match goal with |- context [files ?x !! fp] => destruct (files x !! fp) end;
      reflexivity. }
  rewrite Hstep. clear Hstep.
  repeat split.
  - intros b Hfast. rewrite Hfast in Hf1 |- *. cbn [tool_error tool_output] in Hf1 |- *.
    rewrite Hf1. eexists. split; [done|]. split.
    + unfold after_seek. simpl. by rewrite <-app_assoc.
    + apply lookup_delete_eq.
  - intros msg b Hfast Hacc. rewrite Hfast. rewrite Hacc in Hf2 |- *.
    cbn [tool_error tool_output] in Hf2 |- *.
    rewrite Hf2. eexists. split; [done|]. split.
    + unfold after_seek. simpl. by rewrite <-!app_assoc.
    + apply lookup_delete_eq.
  - intros msg1 msg2 Hfast Hacc. rewrite Hfast, Hacc.
    eexists. split; [done|]. unfold after_seek. simpl. by rewrite <-app_assoc.
Qed.


(** ** The Fetcher *)

Lemma downloadDirect_run e url dest w :
  downloadDirect e url dest w =
    match axios_get e url with
    | GetRejected msg => (Throw (AxiosGetError msg), emit (EvGet url) w)
    | GetResponse status body serr =>
        if bool_decide (status = 200) then
          let w' := set_files (insert dest body) (emit (EvGet url) w) in
          match serr with
          | Some msg => (Throw (StreamError msg), w')
          | None =>
              if bool_decide (length body < 1000)%nat
              then (Throw (DownloadTooSmall (length body)), w')
              else (Return tt, w')
          end
        else (Throw (DownloadFailedHttp status), emit (EvGet url) w)
    end.
Proof.
  unfold downloadDirect. rewrite bind_run. unfold call_axios_get.
  destruct (axios_get e url) as [msg|status body serr]; [done|].
  destruct (decide (status = 200)) as [->|Hstatus].
  - rewrite bool_decide_false by (by intros ?). rewrite bool_decide_true by done.
    rewrite bind_run. unfold pipe_to_file. destruct serr as [msg|]; [done|].
    rewrite bind_run. unfold statSync_size. simpl. rewrite lookup_insert_eq.
    by case_bool_decide.
  - rewrite bool_decide_true by done. by rewrite bool_decide_false by done.
Qed.

(** X7. [downloadDirect] returns exactly when the GET answered with
    status 200, the body stream finished without an error and delivered at
    least 1000 bytes; the world then holds the body at the destination and
    one more logged GET. *)
Theorem downloadDirect_returns_iff e url dest w w' :
  downloadDirect e url dest w = (Return tt, w') ↔
  ∃ body, axios_get e url = GetResponse 200 body None ∧
          (1000 ≤ length body)%nat ∧
          w' = set_files (insert dest body) (emit (EvGet url) w).
Proof.
  rewrite downloadDirect_run.
  destruct (axios_get e url) as [msg|status body serr].
  { split; [discriminate|]. intros (body & [=] & _). }
  case_bool_decide as Hstatus.
  2:{ split; [discriminate|]. intros (body' & [= -> _ _] & _). done. }
  subst status. destruct serr as [msg|].
  { split; [discriminate|]. intros (body' & [=] & _). }
  case_bool_decide as Hsize.
  - split; [discriminate|]. intros (body' & [= <-] & Hlen & _). lia.
  - split.
    + intros [= <-]. exists body. split; [done|]. split; [lia|done].
    + intros (body' & [= <-] & _ & ->). done.
Qed.

Lemma downloadDirect_returns_iff_witness :
  downloadDirect (server every_frame_ok audio_ok) direct_url "/tmp/v.mp4" w0
  = (Return tt, set_files (insert "/tmp/v.mp4" payload) (emit (EvGet direct_url) w0)).
Proof.
  apply (downloadDirect_returns_iff (server every_frame_ok audio_ok) direct_url
           "/tmp/v.mp4" w0).
  exists payload. split; [reflexivity|]. split; [|reflexivity].
  apply Nat.leb_le. vm_compute. reflexivity.
Defined.

(** X8. What [downloadDirect] leaves on disk. With a 200 response the
    bytes that arrived are at the destination also when the function
    throws (stream error, file too small): the rejected file is not
    removed by it. With any other status, or a rejected request, the disk
    is unchanged. *)
Theorem downloadDirect_disk e url dest w :
  files (downloadDirect e url dest w).2 =
    match axios_get e url with
    | GetResponse 200 body _ => <[ dest := body ]> (files w)
    | _ => files w
    end.
Proof.
  rewrite downloadDirect_run.
  destruct (axios_get e url) as [msg|status body serr]; [done|].
  case_bool_decide as Hstatus.
  - subst status. destruct serr as [msg|]; [done|]. by case_bool_decide.
  - destruct status as [|p|p]; try done.
    repeat (destruct p as [p|p|]; try done).
Qed.


(** ** The Resolver *)

Lemma string_app_cons (c : ascii) (s t : string) :
  String c s +:+ t = String c (s +:+ t).
Proof. reflexivity. Qed.

Lemma split_first_spec (sep : ascii) (s : string) :
  (∀ a b, split_first sep s ≠ a +:+ String sep b) ∧
  ∃ rest, s = split_first sep s +:+ rest ∧ (rest = "" ∨ ∃ q, rest = String sep q).
Proof.
  induction s as [|c s [IHfree (rest & IHeq & IHrest)]]; simpl.
  - split; [by intros [|??] ?|]. exists "". split; [done|by left].
  - destruct (Ascii.eqb_spec c sep) as [->|Hc].
    + split; [by intros [|??] ?|]. exists (String sep s). split; [done|]. right. by exists s.
    + split.
      * intros [|a' a] b; rewrite ?string_app_cons; intros [= ? Heq]; [done|].
        by apply (IHfree a b).
      * exists rest. split; [|done]. rewrite string_app_cons. f_equal. exact IHeq.
Qed.

(** X9. The resolver sends exactly one request and never writes a file;
    the URL it posts is the part of the given URL before the first
    question mark: it has no question mark, and the given URL is that part
    followed by nothing or by a query string. *)
Theorem resolveTikTokUrl_posts_clean_url e url w :
  let clean := split_first "?" url in
  log (resolveTikTokUrl e url w).2 = (log w ++ [EvPost clean])%list ∧
  files (resolveTikTokUrl e url w).2 = files w ∧
  (∀ a b, clean ≠ a +:+ "?" +:+ b) ∧
  ∃ rest, url = clean +:+ rest ∧ (rest = "" ∨ ∃ q, rest = "?" +:+ q).
Proof.
  intros clean.
  assert ((resolveTikTokUrl e url w).2 = emit (EvPost clean) w) as ->.
  { unfold resolveTikTokUrl. fold clean. rewrite bind_run. unfold call_axios_post.
    destruct (axios_post e clean) as [msg|[[[[| |]|] [d|]]|]]; try done.
    destruct (pick_videoUrl d) as [u|]; [|done]. by destruct (truthy (Some u)). }
  split; [done|]. split; [done|]. apply split_first_spec.
Qed.

(** X10. The outcomes of the resolver. A URL it returns is never empty and
    is one of the play, HD or watermarked URLs of an answer with code 0;
    an error it throws is either the rejection of the request itself or
    the single resolution error used for every unusable answer. *)
Theorem resolveTikTokUrl_outcomes e url w :
  let clean := split_first "?" url in
  (∀ u, (resolveTikTokUrl e url w).1 = Return u →
     u ≠ "" ∧
     ∃ d, axios_post e clean = PostResponse (Some (mkTikwmBody (Some 0) (Some d))) ∧
          (play d = Some u ∨ hdplay d = Some u ∨ wmplay d = Some u)) ∧
  (∀ err, (resolveTikTokUrl e url w).1 = Throw err →
     err = TikwmFailed ∨ ∃ msg, err = AxiosPostError msg ∧ axios_post e clean = PostRejected msg).
Proof.
  intros clean. unfold resolveTikTokUrl. fold clean. rewrite bind_run.
  unfold call_axios_post.
  destruct (axios_post e clean) as [msg|[[[[|p|p]|] [d|]]|]]; simpl;
    try (split; [discriminate|intros err [= <-]; eauto]).
  destruct (pick_videoUrl d) as [u|] eqn:Hpick; simpl;
    [|split; [discriminate|intros err [= <-]; eauto]].
  destruct (truthy (Some u)) eqn:Hu; simpl;
    [|split; [discriminate|intros err [= <-]; eauto]].
  split; [|discriminate]. intros u' [= <-]. split.
  - intros ->. discriminate.
  - exists d. split; [done|]. unfold pick_videoUrl, js_or in Hpick.
    repeat case_match; eauto.
Qed.

Lemma resolveTikTokUrl_outcomes_witness :
  "https://v.example.com/play.mp4" ≠ "" ∧
  ∃ d, axios_post (with_post (PostResponse (Some (mkTikwmBody (Some 0) (Some three_urls))))
                     (server every_frame_ok audio_ok))
         (split_first "?" tiktok_url)
       = PostResponse (Some (mkTikwmBody (Some 0) (Some d))) ∧
       (play d = Some "https://v.example.com/play.mp4" ∨
        hdplay d = Some "https://v.example.com/play.mp4" ∨
        wmplay d = Some "https://v.example.com/play.mp4").
Proof.
  apply (resolveTikTokUrl_outcomes
           (with_post (PostResponse (Some (mkTikwmBody (Some 0) (Some three_urls))))
              (server every_frame_ok audio_ok)) tiktok_url w0).
  reflexivity.
Defined.

(** ** The subprocess downloader *)

(** X11. Which binary the subprocess downloader runs. When the local
    binary exists it is run, and [which] is not consulted; without it, the
    binary [which] prints is run, after the lookup; when [which] fails or
    prints nothing, no subprocess is started and the error is that yt-dlp
    is not available. *)
Theorem downloadWithYtDlp_binary_choice e url dest w :
  (is_Some (files w !! localBin e) → localBin e ≠ "" →
     downloadWithYtDlp e url dest w = exec_yt_dlp e (localBin e) url dest w ∧
     log (downloadWithYtDlp e url dest w).2 = (log w ++ [EvYtDlp (localBin e) url dest])%list) ∧
  (∀ bin, files w !! localBin e = None → which_yt_dlp e = Some bin → bin ≠ "" →
     log (downloadWithYtDlp e url dest w).2 = (log w ++ [EvWhich; EvYtDlp bin url dest])%list) ∧
  (files w !! localBin e = None → which_yt_dlp e = None ∨ which_yt_dlp e = Some "" →
     downloadWithYtDlp e url dest w = (Throw YtDlpNotAvailable, emit EvWhich w)).
Proof.
  rewrite downloadWithYtDlp_run. unfold available_yt_dlp, after_lookup.
  repeat split.
  - rewrite bool_decide_true by done.
    assert (truthy (Some (localBin e)) = true) as ->; [|done].
    unfold truthy. by apply negb_true_iff, String.eqb_neq.
  - rewrite bool_decide_true by done.
    assert (truthy (Some (localBin e)) = true) as ->.
    { unfold truthy. by apply negb_true_iff, String.eqb_neq. }
    apply exec_yt_dlp_log.
  - intros bin Hlocal Hwhich Hbin.
    rewrite bool_decide_false by (rewrite Hlocal; by intros [? [=]]).
    rewrite Hwhich.
    assert (truthy (Some bin) = true) as ->.
    { unfold truthy. by apply negb_true_iff, String.eqb_neq. }
    rewrite exec_yt_dlp_log. simpl. by rewrite <-app_assoc.
  - intros Hlocal Hwhich.
    rewrite bool_decide_false by (rewrite Hlocal; by intros [? [=]]).
    by destruct Hwhich as [-> | ->].
Qed.

Lemma downloadWithYtDlp_binary_choice_witness :
  downloadWithYtDlp (with_yt_dlp (Some "") (tool_ok payload) (server every_frame_ok audio_ok))
    tiktok_url "/tmp/v.mp4" w0 = (Throw YtDlpNotAvailable, emit EvWhich w0).
Proof.
  apply (downloadWithYtDlp_binary_choice
           (with_yt_dlp (Some "") (tool_ok payload) (server every_frame_ok audio_ok))
           tiktok_url "/tmp/v.mp4" w0).
  - reflexivity.
  - right. reflexivity.
Defined.


(** ** The fetch stage *)

Lemma downloadDirect_errors e url dest w err :
  (downloadDirect e url dest w).1 = Throw err → is_DownloadError err = true.
Proof.
  rewrite downloadDirect_run.
  destruct (axios_get e url) as [msg|status body serr]; [by intros [= <-]|].
  case_bool_decide; [|by intros [= <-]].
  destruct serr as [msg|]; [by intros [= <-]|].
  case_bool_decide; [by intros [= <-]|discriminate].
Qed.

Lemma downloadDirect_Return_exists e url dest w w' :
  downloadDirect e url dest w = (Return tt, w') → is_Some (files w' !! dest).
Proof.
  rewrite downloadDirect_run.
  destruct (axios_get e url) as [msg|status body serr]; [discriminate|].
  case_bool_decide; [|discriminate].
  destruct serr as [msg|]; [discriminate|].
  case_bool_decide; [discriminate|]. intros [= <-].
  simpl. rewrite lookup_insert_eq. by eexists.
Qed.

Lemma downloadWithYtDlp_errors e url dest w err :
  (downloadWithYtDlp e url dest w).1 = Throw err →
  err = YtDlpNotAvailable ∨ ∃ msg, err = YtDlpFailed msg.
Proof.
  rewrite downloadWithYtDlp_run. destruct (available_yt_dlp e (files w)) as [bin|].
  - unfold exec_yt_dlp. destruct (tool_error _) as [msg|]; [|discriminate].
    intros [= <-]. right. by exists msg.
  - intros [= <-]. by left.
Qed.

(** Lines 639-644: the check after the download. *)
Lemma fetch_check_run vp w :
  (downloaded ← existsSync vp;
   when (negb downloaded) (throw VideoNotCreated);;
   _ ← statSync_size vp;
   mret tt) w =
  (if bool_decide (is_Some (files w !! vp)) then Return tt else Throw VideoNotCreated, w).
Proof.
  unfold mbind, mret, M_bind, M_ret, existsSync, statSync_size, when, throw.
  destruct (files w !! vp) as [bytes|] eqn:Hvp.
  - rewrite !bool_decide_true by (by eexists). simpl. by rewrite Hvp.
  - rewrite !bool_decide_false by (by intros [? ?]). done.
Qed.

(** The errors of the fetch stage. *)
Lemma fetchVideo_errors e url vp w err :
  (fetchVideo e url vp w).1 = Throw err →
  if includes "tiktok.com" url
  then err = YtDlpNotAvailable ∨ (∃ msg, err = YtDlpFailed msg) ∨ err = VideoNotCreated
  else is_DownloadError err = true.
Proof.
  unfold fetchVideo. rewrite bind_run.
  destruct (includes "tiktok.com" url).
  - unfold try_catch.
    destruct ((resolveTikTokUrl e url ≫= λ directUrl, downloadDirect e directUrl vp) w)
      as [[[]|err1] w1] eqn:Htry.
    + apply bind_Return_inv in Htry as (directUrl & w0' & _ & Hdl).
      apply downloadDirect_Return_exists in Hdl.
      rewrite fetch_check_run, bool_decide_true by done. discriminate.
    + destruct (downloadWithYtDlp e url vp w1) as [[[]|err2] w2] eqn:Hdl.
      * rewrite fetch_check_run. case_bool_decide; [discriminate|].
        intros [= <-]. auto.
      * intros [= <-].
        pose proof (downloadWithYtDlp_errors e url vp w1 err2) as Herr.
        rewrite Hdl in Herr. destruct (Herr eq_refl) as [->|[msg ->]]; eauto.
  - destruct (downloadDirect e url vp w) as [[[]|err1] w1] eqn:Hdl.
    + apply downloadDirect_Return_exists in Hdl.
      rewrite fetch_check_run, bool_decide_true by done. discriminate.
    + intros [= <-]. apply (downloadDirect_errors e url vp w). by rewrite Hdl.
Qed.


(** X13. The size check of the download does not protect the fallback
    path. When the resolved download of a platform URL is rejected as too
    small, its bytes stay at the video path; if the subprocess downloader
    then exits without an error and without replacing the file, the fetch
    stage returns, and the undersized file is what the pipeline works on. *)
Theorem undersized_download_survives_fallback e url vp w directUrl w1 body bin :
  includes "tiktok.com" url = true →
  resolveTikTokUrl e url w = (Return directUrl, w1) →
  axios_get e directUrl = GetResponse 200 body None →
  (length body < 1000)%nat →
  available_yt_dlp e (<[ vp := body ]> (files w1)) = Some bin →
  yt_dlp e bin url = mkToolRun None None →
  ∃ w', fetchVideo e url vp w = (Return tt, w') ∧ files w' !! vp = Some body.
Proof.
  intros Htt Hres Hget Hsmall Hbin Hrun.
  pose proof (downloadDirect_run e directUrl vp w1) as Hdl.
  rewrite Hget, bool_decide_true in Hdl by done. cbv zeta in Hdl.
  rewrite bool_decide_true in Hdl by done.
  set (w2 := set_files (insert vp body) (emit (EvGet directUrl) w1)) in Hdl.
  assert (files w2 = <[ vp := body ]> (files w1)) as Hdisk by done.
  unfold fetchVideo. rewrite Htt, bind_run. unfold try_catch.
  rewrite (bind_Return _ _ _ _ _ Hres), Hdl.
  rewrite downloadWithYtDlp_run, Hdisk, Hbin.
  unfold exec_yt_dlp. rewrite Hrun. simpl.
  rewrite fetch_check_run. simpl. unfold leave_output. simpl.
  assert (files (after_lookup e w2) = files w2) as Hsame.
  { unfold after_lookup. by case_bool_decide. }
  rewrite Hsame, Hdisk, lookup_insert_eq, bool_decide_true by done.
  eexists. split; [done|]. simpl. by rewrite Hsame, Hdisk, lookup_insert_eq.
Qed.

Lemma undersized_download_survives_fallback_witness :
  ∃ w', fetchVideo
          (with_yt_dlp (Some "/usr/bin/yt-dlp") (mkToolRun None None)
             (with_post (PostResponse (Some (mkTikwmBody (Some 0) (Some three_urls))))
                (with_get (GetResponse 200 jpeg None) (server every_frame_ok audio_ok))))
          tiktok_url "/tmp/v.mp4" w0 = (Return tt, w') ∧
        files w' !! "/tmp/v.mp4" = Some jpeg.
Proof.
  apply (undersized_download_survives_fallback
           (with_yt_dlp (Some "/usr/bin/yt-dlp") (mkToolRun None None)
             (with_post (PostResponse (Some (mkTikwmBody (Some 0) (Some three_urls))))
                (with_get (GetResponse 200 jpeg None) (server every_frame_ok audio_ok))))
           tiktok_url "/tmp/v.mp4" w0 "https://v.example.com/play.mp4"
           (emit (EvPost (split_first "?" tiktok_url)) w0) jpeg "/usr/bin/yt-dlp").
  - vm_compute. reflexivity.
  - vm_compute. reflexivity.
  - reflexivity.
  - simpl. lia.
  - vm_compute. reflexivity.
  - reflexivity.
Defined.


(** ** The trace of an invocation *)

Global Instance adds_preorder P : PreOrder (adds P).
Proof.
  split.
  - intros w. exists []. by rewrite app_nil_r.
  - intros w1 w2 w3 (evs1 & H1 & HP1) (evs2 & H2 & HP2).
    exists (evs1 ++ evs2)%list. split; [|by apply Forall_app].
    by rewrite H2, H1, <-(assoc app).
Qed.

Lemma adds_emit (P : Event → Prop) ev w : P ev → adds P w (emit ev w).
Proof. intros Hev. exists [ev]. split; [done|]. by constructor. Qed.

Lemma adds_quiet (P : Event → Prop) w w' : log w' = log w → adds P w w'.
Proof. intros Hlog. exists []. by rewrite app_nil_r. Qed.

Lemma adds_emit_after (P : Event → Prop) ev w w' :
  log w' = log w → P ev → adds P w (emit ev w').
Proof. intros Hlog Hev. exists [ev]. split; [by simpl; rewrite Hlog|]. by constructor. Qed.

Section Traces.
Variable P : Event → Prop.

Lemma existsSync_adds p : preserves (adds P) (existsSync p).
Proof. intros w. simpl. reflexivity. Qed.

Lemma readFileSync_adds p : preserves (adds P) (readFileSync p).
Proof. intros w. unfold readFileSync. destruct (files w !! p); simpl; reflexivity. Qed.

Lemma statSync_size_adds p : preserves (adds P) (statSync_size p).
Proof. intros w. unfold statSync_size. destruct (files w !! p); simpl; reflexivity. Qed.

Lemma unlinkSync_adds p : P (EvUnlink p) → preserves (adds P) (unlinkSync p).
Proof.
  intros Hp w. unfold unlinkSync. destruct (files w !! p); simpl; [|reflexivity].
  by apply adds_emit_after.
Qed.

Lemma ensure_dir_adds d : P (EvMkdir d) → preserves (adds P) (ensure_dir d).
Proof.
  intros Hd w. unfold ensure_dir. case_bool_decide; simpl; [reflexivity|].
  by apply adds_emit_after.
Qed.

Lemma call_axios_get_adds e url : P (EvGet url) → preserves (adds P) (call_axios_get e url).
Proof.
  intros Hu w. unfold call_axios_get. destruct (axios_get e url); simpl; by apply adds_emit.
Qed.

Lemma call_axios_post_adds e url :
  P (EvPost url) → preserves (adds P) (call_axios_post e url).
Proof.
  intros Hu w. unfold call_axios_post. destruct (axios_post e url); simpl; by apply adds_emit.
Qed.

Lemma execSync_which_adds e : P EvWhich → preserves (adds P) (execSync_which e).
Proof. intros Hw w. by apply adds_emit. Qed.

Lemma call_ffprobe_adds e p : P (EvFfprobe p) → preserves (adds P) (call_ffprobe e p).
Proof.
  intros Hp w. unfold call_ffprobe. destruct (ffprobe e _); simpl; by apply adds_emit.
Qed.

Lemma pipe_to_file_adds dest body serr : preserves (adds P) (pipe_to_file dest body serr).
Proof. intros w. unfold pipe_to_file. destruct serr; simpl; by apply adds_quiet. Qed.

Lemma exec_yt_dlp_adds e bin url dest :
  P (EvYtDlp bin url dest) → preserves (adds P) (exec_yt_dlp e bin url dest).
Proof.
  intros Hev w. unfold exec_yt_dlp. destruct (tool_error _); simpl; by apply adds_emit_after.
Qed.

Lemma run_ffmpeg_frame_adds e mode vp t out :
  P (seek_event mode t out) → preserves (adds P) (run_ffmpeg_frame e mode vp t out).
Proof. intros Hev w. unfold run_ffmpeg_frame. simpl. by apply adds_emit_after. Qed.

Lemma run_ffmpeg_mp3_adds e vp ap :
  P (EvToMp3 ap) → preserves (adds P) (run_ffmpeg_mp3 e vp ap).
Proof.
  intros Hev w. unfold run_ffmpeg_mp3. destruct (tool_error _); simpl; by apply adds_emit_after.
Qed.
End Traces.

Local Ltac adds_step :=
  first
    [ apply (preserves_ret (adds _))
    | apply (preserves_throw (adds _))
    | apply (preserves_bind (adds _)); [|intros ?]
    | apply (preserves_try_catch (adds _)); [|intros ?]
    | apply (preserves_when (adds _))
    | apply existsSync_adds
    | apply readFileSync_adds
    | apply statSync_size_adds
    | apply pipe_to_file_adds
    | apply ensure_dir_adds; solve [auto]
    | apply call_axios_get_adds; solve [auto]
    | apply call_axios_post_adds; solve [auto]
    | apply execSync_which_adds; solve [auto]
    | apply call_ffprobe_adds; solve [auto]
    | apply unlinkSync_adds; solve [auto]
    | apply exec_yt_dlp_adds; solve [auto]
    | apply run_ffmpeg_frame_adds; solve [auto]
    | apply run_ffmpeg_mp3_adds; solve [auto]
    | match goal with
      | |- preserves _ (match ?x with _ => _ end) => destruct x
      end ].

Section StageTraces.
Variable P : Event → Prop.

Lemma downloadDirect_adds e url dest :
  P (EvGet url) → preserves (adds P) (downloadDirect e url dest).
Proof. intros ?. unfold downloadDirect. repeat adds_step. Qed.

Lemma resolveTikTokUrl_adds e url :
  P (EvPost (split_first "?" url)) → preserves (adds P) (resolveTikTokUrl e url).
Proof. intros ?. unfold resolveTikTokUrl. repeat adds_step. Qed.

Lemma downloadWithYtDlp_adds e url dest :
  P EvWhich → P (EvYtDlp (localBin e) url dest) →
  (∀ bin, which_yt_dlp e = Some bin → P (EvYtDlp bin url dest)) →
  preserves (adds P) (downloadWithYtDlp e url dest).
Proof.
  intros Hw Hlocal Hwhich w. rewrite downloadWithYtDlp_run.
  assert (adds P w (after_lookup e w)) as Hlook.
  { unfold after_lookup. case_bool_decide; [reflexivity|by apply adds_emit]. }
  destruct (available_yt_dlp e (files w)) as [bin|] eqn:Hbin; [|done].
  etrans; [exact Hlook|]. apply exec_yt_dlp_adds.
  unfold available_yt_dlp in Hbin. case_bool_decide.
  - destruct (truthy (Some (localBin e))); by simplify_eq.
  - destruct (truthy (which_yt_dlp e)); [|done]. by apply Hwhich.
Qed.

Lemma cleanupVideo_adds vp : P (EvUnlink vp) → preserves (adds P) (cleanupVideo vp).
Proof. intros ?. unfold cleanupVideo. repeat adds_step. Qed.

Lemma frameStep_adds e tmp id vp acc t :
  P (EvSeekInput t (framePath_of tmp id t)) → P (EvSeek t (framePath_of tmp id t)) →
  P (EvUnlink (framePath_of tmp id t)) →
  preserves (adds P) (frameStep e tmp id vp acc t).
Proof. intros ???. unfold frameStep, captureFrame. repeat adds_step. Qed.

Lemma frameLoop_adds e tmp id vp ts acc :
  (∀ t, P (EvSeekInput t (framePath_of tmp id t)) ∧ P (EvSeek t (framePath_of tmp id t)) ∧
        P (EvUnlink (framePath_of tmp id t))) →
  preserves (adds P) (frameLoop e tmp id vp ts acc).
Proof.
  intros HP. revert acc. induction ts as [|t ts IH]; intros acc; simpl.
  - apply (preserves_ret (adds _)).
  - apply (preserves_bind (adds _)); [|done].
    apply frameStep_adds; apply HP.
Qed.
End StageTraces.

Lemma resolveTikTokUrl_Return e url w u w' :
  resolveTikTokUrl e url w = (Return u, w') → resolved e url u.
Proof.
  unfold resolveTikTokUrl. rewrite bind_run. unfold call_axios_post, resolved.
  destruct (axios_post e _) as [msg|[[[[|p|p]|] [d|]]|]]; try discriminate.
  destruct (pick_videoUrl d) as [u'|] eqn:Hpick; [|discriminate].
  destruct (truthy (Some u')); [|discriminate].
  intros [= <- _]. by exists d.
Qed.

Lemma fetchVideo_adds e url :
  preserves (adds (own_event e url))
    (fetchVideo e url (videoPath_of (os_tmpdir e) (Date_now e))).
Proof.
  unfold fetchVideo.
  apply (preserves_bind (adds _)); [|intros _; repeat adds_step].
  destruct (includes "tiktok.com" url) eqn:Htt.
  - intros w. unfold try_catch.
    destruct ((resolveTikTokUrl e url ≫= _) w) as [[a|err] w'] eqn:Hrun.
    + pose proof (resolveTikTokUrl_adds (own_event e url) e url) as Hres.
      rewrite bind_run in Hrun.
      destruct (resolveTikTokUrl e url w) as [[u|err] w1] eqn:Hr; [|discriminate].
      etrans.
      { specialize (Hres ltac:(by unfold own_event; rewrite Htt) w).
        rewrite Hr in Hres. exact Hres. }
      apply resolveTikTokUrl_Return in Hr.
      pose proof (downloadDirect_adds (own_event e url) e u
                    (videoPath_of (os_tmpdir e) (Date_now e))) as Hdl.
      specialize (Hdl ltac:(by unfold own_event; rewrite Htt) w1).
      by rewrite Hrun in Hdl.
    + etrans.
      { instantiate (1 := w'). rewrite bind_run in Hrun.
        pose proof (resolveTikTokUrl_adds (own_event e url) e url) as Hres.
        specialize (Hres ltac:(by unfold own_event; rewrite Htt) w).
        destruct (resolveTikTokUrl e url w) as [[u|err'] w1] eqn:Hr.
        - etrans; [exact Hres|].
          apply resolveTikTokUrl_Return in Hr.
          pose proof (downloadDirect_adds (own_event e url) e u
                        (videoPath_of (os_tmpdir e) (Date_now e))) as Hdl.
          specialize (Hdl ltac:(by unfold own_event; rewrite Htt) w1).
          by rewrite Hrun in Hdl.
        - by simplify_eq. }
      apply downloadWithYtDlp_adds; unfold own_event; rewrite Htt; auto.
  - apply downloadDirect_adds. unfold own_event. by rewrite Htt.
Qed.

(** X14. Every interaction of an invocation with the outside is one of
    its own: the only directory made is the transient directory; the
    resolution API, [which] and yt-dlp are used for platform URLs only,
    with the cleaned URL, the given URL and the video path; a GET goes to
    the given URL, or for a platform URL to a URL the API offered; the
    probe reads the video path; captures write to the frame path of their
    timestamp; the audio goes to the audio path; and only the video path
    and frame paths are ever unlinked. *)
Theorem extractFrames_events e url manual w :
  ∃ evs, log (extractFrames e url manual w).2 = (log w ++ evs)%list ∧
         Forall (own_event e url) evs.
Proof.
  assert (own_event e url (EvUnlink (videoPath_of (os_tmpdir e) (Date_now e)))) as Hvp
    by (by left).
  assert (∀ t, own_event e url (EvUnlink (framePath_of (os_tmpdir e) (Date_now e) t)))
    as Hfp by (intros t; right; by exists t).
  revert w. change (preserves (adds (own_event e url)) (extractFrames e url manual)).
  unfold extractFrames.
  apply (preserves_bind (adds _)); [by apply ensure_dir_adds|intros _].
  apply (preserves_try_catch (adds _)).
  2:{ intros err. apply (preserves_bind (adds _)); [by apply cleanupVideo_adds|intros _].
      apply (preserves_throw (adds _)). }
  unfold extractFrames_try.
  apply (preserves_bind (adds _)); [apply fetchVideo_adds|intros _].
  apply (preserves_bind (adds _)); [by apply call_ffprobe_adds|intros md].
  apply (preserves_bind (adds _)); [by apply frameLoop_adds|intros fr].
  case_bool_decide; [apply (preserves_throw (adds _))|].
  apply (preserves_bind (adds _)); [by apply run_ffmpeg_mp3_adds|intros _].
  apply (preserves_bind (adds _)); [by apply cleanupVideo_adds|intros _].
  apply (preserves_ret (adds _)).
Qed.


(** ** The errors and the names of an invocation *)

(** X12. A failed fetch stage is the failure of the invocation: the error
    of the fetch stage is thrown by [extractFrames] unchanged, after the
    video cleanup. For a platform URL it is one of the errors of the
    subprocess fallback (yt-dlp unavailable, yt-dlp failed, no file
    created), so an error of the resolution API or of the resolved
    download never surfaces; for any other URL it is a download error. *)
Theorem extractFrames_fetch_errors e url manual w err :
  let tmp := os_tmpdir e in
  let id := Date_now e in
  let vp := videoPath_of tmp id in
  (fetchVideo e url vp (ensure_dir tmp w).2).1 = Throw err →
  (extractFrames e url manual w).1 = Throw err ∧
  files (extractFrames e url manual w).2 !! vp = None ∧
  (if includes "tiktok.com" url
   then err = YtDlpNotAvailable ∨ (∃ msg, err = YtDlpFailed msg) ∨ err = VideoNotCreated
   else is_DownloadError err = true).
Proof.
  intros tmp id vp Hfetch.
  destruct (ensure_dir_run tmp w) as [Hdir _].
  destruct (fetchVideo e url vp (ensure_dir tmp w).2) as [r w2] eqn:Hrun.
  simpl in Hfetch. subst r.
  assert (extractFrames e url manual w = (Throw err, (cleanupVideo vp w2).2)) as ->.
  { unfold extractFrames. fold tmp id vp.
    rewrite (bind_Return _ _ _ _ _ Hdir).
    assert (extractFrames_try e url manual tmp id vp (ensure_dir tmp w).2
            = (Throw err, w2)) as Htry.
    { unfold extractFrames_try. by rewrite (bind_Throw _ _ _ _ _ Hrun). }
    by rewrite (try_catch_Throw _ _ _ _ _ Htry), cleanup_then_throw_run. }
  split; [done|]. split; [apply cleanupVideo_removes|].
  apply (fetchVideo_errors e url vp (ensure_dir tmp w).2). by rewrite Hrun.
Qed.

Lemma extractFrames_fetch_errors_witness :
  (extractFrames (server every_frame_ok audio_ok) tiktok_url None w0).1
    = Throw YtDlpNotAvailable ∧
  files (extractFrames (server every_frame_ok audio_ok) tiktok_url None w0).2
    !! videoPath_of "/tmp" 1700000000000 = None ∧
  (YtDlpNotAvailable = YtDlpNotAvailable ∨
   (∃ msg, YtDlpNotAvailable = YtDlpFailed msg) ∨
   YtDlpNotAvailable = VideoNotCreated).
Proof.
  apply (extractFrames_fetch_errors (server every_frame_ok audio_ok) tiktok_url None w0
           YtDlpNotAvailable).
  vm_compute. reflexivity.
Defined.

(** X15. Within one invocation the transient files do not collide: for
    distinct timestamps the video path, the audio path and the frame paths
    are pairwise different. *)
Theorem transient_paths_distinct tmp id ts :
  NoDup ts → NoDup (transient_paths tmp id ts).
Proof.
  intros Hts. unfold transient_paths.
  apply NoDup_cons. split.
  { rewrite elem_of_cons, list_elem_of_fmap. intros [H|(t & H & _)].
    - by apply videoPath_ne_audioPath in H.
    - by apply videoPath_ne_framePath in H. }
  apply NoDup_cons. split.
  { rewrite list_elem_of_fmap. intros (t & H & _). by apply audioPath_ne_framePath in H. }
  apply NoDup_fmap_2; [|done].
  intros t1 t2 H. by apply framePath_of_inj in H as [_ ?].
Qed.

Lemma transient_paths_distinct_witness :
  NoDup (transient_paths "/tmp" 1700000000000 [0; 1; 2; 5; 9]).
Proof.
  apply (transient_paths_distinct "/tmp" 1700000000000 [0; 1; 2; 5; 9]).
  apply (bool_decide_unpack _). vm_compute. exact I.
Defined.

(** ** Demonstrations *)


Lemma extractFrames_result_shape_witness :
  demo_frames [0; 1; 2; 5; 9] ≠ [] ∧
  "/tmp/audio_1700000000000.mp3" = audioPath_of "/tmp" 1700000000000 ∧
  Forall (λ f, mimeType f = "image/jpeg") (demo_frames [0; 1; 2; 5; 9]) ∧
  (∃ md, ffprobe (server every_frame_ok audio_ok)
           (files (fetched (server every_frame_ok audio_ok) direct_url)
              !! videoPath_of "/tmp" 1700000000000) = inr md ∧
         map timestamp (demo_frames [0; 1; 2; 5; 9])
           `sublist_of` chooseTimestamps (duration_or_30 md) None) ∧
  (@None (list Z) = None → (1 ≤ length (demo_frames [0; 1; 2; 5; 9]%Z) ≤ 5)%nat).
Proof.
  apply (extractFrames_result_shape (server every_frame_ok audio_ok) direct_url None w0
           (mkExtraction (demo_frames [0; 1; 2; 5; 9]) "/tmp/audio_1700000000000.mp3")).
  vm_compute. reflexivity.
Defined.

Lemma frameStep_traces_witness :
  ∃ w', frameStep (server no_frame_ok audio_ok) "/tmp" 7 (videoPath_of "/tmp" 7) [] 2 w0
        = (Return [], w') ∧
        log w' = (log w0 ++ [EvSeekInput 2 (framePath_of "/tmp" 7 2);
                             EvSeek 2 (framePath_of "/tmp" 7 2)])%list.
Proof.
  apply (proj2 (proj2 (frameStep_traces (server no_frame_ok audio_ok) "/tmp" 7 [] 2 w0))
           "Conversion failed!" "Conversion failed!"); reflexivity.
Defined.


(** ** The transcriber *)

Lemma Async_bind_run {A B} (m : Async A) (f : A → Async B) (st : Site) :
  (m ≫= f) st =
    match m st with
    | (Resolved a, st') => f a st'
    | (Rejected error, st') => (Rejected error, st')
    end.
Proof. reflexivity. Qed.

Lemma cleanupAudio_run (p : string) (st : Site) :
  lift (cleanupAudio p) st = (Resolved tt, mkSite (without p (world st)) (calls st)).
Proof.
  unfold lift. change (cleanupAudio p) with (cleanupVideo p).
  by rewrite cleanupVideo_run.
Qed.

Lemma without_files (p : string) (w : World) : files (without p w) = delete p (files w).
Proof.
  unfold without. case_bool_decide as Hp; [done|].
  simpl. symmetry. apply delete_id. by apply eq_None_not_Some.
Qed.

Lemma transcribeAttempt_run s p k st :
  transcribeAttempt s p k st =
    match transcriptions_create s k (files (world st) !! p) with
    | Transcription text =>
        (Resolved (Some text), mkSite (without p (world st)) (calls st ++ [CallWhisper k p]))
    | WhisperRejected message code =>
        if (k <? MAX_RETRIES)%nat && isNetworkError (WhisperFailure message code)
        then (Resolved None,
              mkSite (world st) (calls st ++ [CallWhisper k p; CallTimeout 2000]))
        else (Rejected (TranscriptionFailed (WhisperFailure message code)),
              mkSite (without p (world st)) (calls st ++ [CallWhisper k p]))
    end.
Proof.
  unfold transcribeAttempt, Async_try. rewrite Async_bind_run. unfold call_transcriptions.
  destruct (transcriptions_create s k _) as [text|message code].
  - rewrite Async_bind_run, cleanupAudio_run. done.
  - destruct (_ && _).
    + rewrite Async_bind_run. unfold setTimeout, call. simpl.
      by rewrite <-(assoc app).
    + rewrite Async_bind_run, cleanupAudio_run. done.
Qed.

Lemma isNetworkError_retryable message code :
  isNetworkError (WhisperFailure message code) = true ↔
  retryable (WhisperRejected message code).
Proof.
  unfold isNetworkError. simpl. destruct code as [code|]; [|by split].
  apply bool_decide_eq_true.
Qed.

Lemma retryable_rejected reply :
  retryable reply → ∃ message code, reply = WhisperRejected message code ∧
                      isNetworkError (WhisperFailure message code) = true.
Proof.
  destruct reply as [text|message code]; [done|]. intros Hr.
  exists message, code. split; [done|]. by apply isNetworkError_retryable.
Qed.

(** The last attempt, or an attempt whose reply is not retried. *)
Lemma transcribeAttempt_last s p k st :
  k = MAX_RETRIES ∨ ¬ retryable (transcriptions_create s k (files (world st) !! p)) →
  transcribeAttempt s p k st =
    (match settle (transcriptions_create s k (files (world st) !! p)) with
     | Resolved t => Resolved t
     | Rejected error => Rejected error
     end,
     mkSite (without p (world st)) (calls st ++ [CallWhisper k p])).
Proof.
  intros Hlast. rewrite transcribeAttempt_run.
  destruct (transcriptions_create s k _) as [text|message code]; [done|].
  destruct ((k <? MAX_RETRIES)%nat && _) eqn:Hretry; [|done].
  apply andb_true_iff in Hretry as [Hk Hnet].
  apply Nat.ltb_lt in Hk. apply isNetworkError_retryable in Hnet.
  destruct Hlast; [lia|done].
Qed.

Lemma transcribeAttempt_retry s p k st :
  (k < MAX_RETRIES)%nat → retryable (transcriptions_create s k (files (world st) !! p)) →
  transcribeAttempt s p k st =
    (Resolved None, mkSite (world st) (calls st ++ [CallWhisper k p; CallTimeout 2000])).
Proof.
  intros Hk Hr. rewrite transcribeAttempt_run.
  apply retryable_rejected in Hr as (message & code & -> & Hnet).
  rewrite Hnet. apply Nat.ltb_lt in Hk. by rewrite Hk.
Qed.

Lemma settle_inv reply :
  (match settle reply with Resolved t => Resolved t | Rejected error => Rejected error end)
  = settle reply.
Proof. by destruct (settle reply). Qed.

(** The run of the function when the key is set, by the attempt that ends it. *)
Lemma transcribeAudio_ends s p st (k : nat) :
  truthy (GROQ_API_KEY s) = true →
  let audio := files (world st) !! p in
  (1 ≤ k ≤ MAX_RETRIES)%nat →
  (∀ j, (1 ≤ j < k)%nat → retryable (transcriptions_create s j audio)) →
  k = MAX_RETRIES ∨ ¬ retryable (transcriptions_create s k audio) →
  transcribeAudio s p st =
    (settle (transcriptions_create s k audio),
     mkSite (without p (world st)) (calls st ++ attempt_calls p (k - 1))).
Proof.
  intros Hkey audio Hk Hbefore Hlast. unfold transcribeAudio. rewrite Hkey. cbn [negb].
  unfold MAX_RETRIES in *. cbn [seq attemptLoop].
  assert (k = 1 ∨ k = 2 ∨ k = 3)%nat as [->|[->| ->]] by lia.
  - rewrite Async_bind_run, transcribeAttempt_last by done. fold audio.
    destruct (settle _) as [[t|]|error] eqn:Hs; try done.
    by destruct (transcriptions_create s 1 audio).
  - rewrite Async_bind_run, transcribeAttempt_retry by (unfold MAX_RETRIES; auto with lia).
    cbv beta iota.
    rewrite Async_bind_run, transcribeAttempt_last by done. cbn [world calls]. fold audio.
    unfold attempt_calls. rewrite <-app_assoc. simpl.
    destruct (settle _) as [[t|]|error] eqn:Hs; try done.
    by destruct (transcriptions_create s 2 audio).
  - rewrite Async_bind_run, transcribeAttempt_retry by (unfold MAX_RETRIES; auto with lia).
    cbv beta iota.
    rewrite Async_bind_run, transcribeAttempt_retry by (unfold MAX_RETRIES; auto with lia).
    cbv beta iota.
    rewrite Async_bind_run, transcribeAttempt_last by (by left). cbn [world calls].
    fold audio.
    unfold attempt_calls. rewrite <-!app_assoc. simpl.
    by destruct (settle _) as [[t|]|error].
Qed.

Lemma retryable_dec reply : Decision (retryable reply).
Proof. destruct reply as [|? [code|]]; simpl; apply _. Qed.

(** Some attempt ends the run. *)
Lemma last_attempt_exists s (audio : option (list byte)) :
  ∃ k, (1 ≤ k ≤ MAX_RETRIES)%nat ∧
       (∀ j, (1 ≤ j < k)%nat → retryable (transcriptions_create s j audio)) ∧
       (k = MAX_RETRIES ∨ ¬ retryable (transcriptions_create s k audio)).
Proof.
  unfold MAX_RETRIES.
  destruct (retryable_dec (transcriptions_create s 1 audio)) as [H1|H1].
  2:{ exists 1%nat. split; [lia|]. split; [intros j ?; lia|by right]. }
  destruct (retryable_dec (transcriptions_create s 2 audio)) as [H2|H2].
  2:{ exists 2%nat. split; [lia|]. split; [|by right].
      intros j ?. by replace j with 1%nat by lia. }
  exists 3%nat. split; [lia|]. split; [|by left].
  intros j ?. assert (j = 1 ∨ j = 2)%nat as [-> | ->] by lia; done.
Qed.

Lemma transcribeAudio_world s p st :
  truthy (GROQ_API_KEY s) = true →
  world (transcribeAudio s p st).2 = without p (world st) ∧
  (transcribeAudio s p st).1 ≠ Resolved None.
Proof.
  intros Hkey.
  destruct (last_attempt_exists s (files (world st) !! p)) as (k & Hk & Hbefore & Hlast).
  rewrite (transcribeAudio_ends s p st k) by done. split; [done|].
  simpl. by destruct (transcriptions_create s k _).
Qed.

(** X16. The transcriber and the audio file. Without an API key the
    function throws at once: no call is made and the audio file is not
    deleted. With a key, the audio file is gone after the call on every
    exit path - a transcription, a failed last attempt, an error that is
    not retried -, no other file is touched, and the function never falls
    out of its loop returning [undefined]. *)
Theorem transcribeAudio_audio_file s p st :
  (truthy (GROQ_API_KEY s) = false → transcribeAudio s p st = (Rejected KeyMissing, st)) ∧
  (truthy (GROQ_API_KEY s) = true →
     files (world (transcribeAudio s p st).2) = delete p (files (world st)) ∧
     (transcribeAudio s p st).1 ≠ Resolved None).
Proof.
  split; intros Hkey.
  - unfold transcribeAudio. by rewrite Hkey.
  - destruct (transcribeAudio_world s p st Hkey) as [-> ?].
    by rewrite without_files.
Qed.

Lemma transcribeAudio_audio_file_witness :
  files (world (transcribeAudio (groq (Some "gsk_live") unauthorized (ChatCompletion None))
                  "/tmp/audio_1.mp3"
                  (mkSite (set_files (insert "/tmp/audio_1.mp3" mp3) w0) [])).2)
  = delete "/tmp/audio_1.mp3"
      (files (world (mkSite (set_files (insert "/tmp/audio_1.mp3" mp3) w0) []))) ∧
  (transcribeAudio (groq (Some "gsk_live") unauthorized (ChatCompletion None))
     "/tmp/audio_1.mp3"
     (mkSite (set_files (insert "/tmp/audio_1.mp3" mp3) w0) [])).1 ≠ Resolved None.
Proof.
  apply (proj2 (transcribeAudio_audio_file
                  (groq (Some "gsk_live") unauthorized (ChatCompletion None))
                  "/tmp/audio_1.mp3"
                  (mkSite (set_files (insert "/tmp/audio_1.mp3" mp3) w0) []))).
  reflexivity.
Defined.

(** X17. The retry policy of the transcriber. With a key, a run makes k
    attempts for some k between 1 and 3: every attempt before the k-th was
    rejected with one of the codes ETIMEDOUT, ECONNRESET, ENOTFOUND, the
    k-th is the third or is not such a rejection, and its reply decides
    the result - the text, or the failure wrapping its error. The calls
    are the k attempts on the audio path, numbered from 1, with a pause of
    2000 ms before each retry. *)
Theorem transcribeAudio_attempts s p st :
  truthy (GROQ_API_KEY s) = true →
  let audio := files (world st) !! p in
  ∃ k, (1 ≤ k ≤ 3)%nat ∧
       (∀ j, (1 ≤ j < k)%nat → retryable (transcriptions_create s j audio)) ∧
       (k = 3%nat ∨ ¬ retryable (transcriptions_create s k audio)) ∧
       (transcribeAudio s p st).1 = settle (transcriptions_create s k audio) ∧
       calls (transcribeAudio s p st).2 = (calls st ++ attempt_calls p (k - 1))%list.
Proof.
  intros Hkey audio.
  destruct (last_attempt_exists s audio) as (k & Hk & Hbefore & Hlast).
  exists k. split; [done|]. split; [done|]. split; [done|].
  by rewrite (transcribeAudio_ends s p st k).
Qed.

Lemma transcribeAudio_attempts_witness :
  ∃ k, (1 ≤ k ≤ 3)%nat ∧
       (∀ j, (1 ≤ j < k)%nat → retryable (timeout_then "Buy it now." j)) ∧
       (k = 3%nat ∨ ¬ retryable (timeout_then "Buy it now." k)) ∧
       (transcribeAudio (groq (Some "gsk_live") (timeout_then "Buy it now.")
                           (ChatCompletion None)) "/tmp/audio_1.mp3" site0).1
       = settle (timeout_then "Buy it now." k) ∧
       calls (transcribeAudio (groq (Some "gsk_live") (timeout_then "Buy it now.")
                                 (ChatCompletion None)) "/tmp/audio_1.mp3" site0).2
       = ([] ++ attempt_calls "/tmp/audio_1.mp3" (k - 1))%list.
Proof.
  apply (transcribeAudio_attempts
           (groq (Some "gsk_live") (timeout_then "Buy it now.") (ChatCompletion None))
           "/tmp/audio_1.mp3" site0).
  reflexivity.
Defined.


(** ** The analyzer and the request handler *)

Lemma analyzeVideoFrames_run s images ctx spoken st :
  truthy (GROQ_API_KEY s) = true →
  analyzeVideoFrames s images ctx spoken st =
    (match completions_create s images ctx spoken with
     | ChatRejected message => Rejected (VideoAnalysisFailed (ChatFailure message))
     | ChatCompletion content =>
         if truthy content then
           match JSON_parse s (default "" content) with
           | Some object => Resolved object
           | None => Rejected (VideoAnalysisFailed (SyntaxError (default "" content)))
           end
         else Rejected (VideoAnalysisFailed EmptyResponse)
     end, call (CallChat images ctx spoken) st).
Proof.
  intros Hkey. unfold analyzeVideoFrames, Async_try. rewrite Hkey. cbn [negb].
  rewrite Async_bind_run. unfold call_completions.
  destruct (completions_create s images ctx spoken) as [message|[text|]]; try done.
  simpl. destruct (truthy (Some text)); [|done].
  by destruct (JSON_parse s text).
Qed.

Lemma analyzeVideoFrames_settles s images ctx spoken st :
  truthy (GROQ_API_KEY s) = true →
  (analyzeVideoFrames s images ctx spoken st).2 = call (CallChat images ctx spoken) st ∧
  ∀ error, (analyzeVideoFrames s images ctx spoken st).1 = Rejected error →
           ∃ inner, error = VideoAnalysisFailed inner ∧ is_chat_failure inner.
Proof.
  intros Hkey. rewrite analyzeVideoFrames_run by done. split; [done|].
  intros error. simpl.
  destruct (completions_create s images ctx spoken) as [message|content].
  - intros [= <-]. by eexists.
  - destruct (truthy content); [|intros [= <-]; by eexists].
    destruct (JSON_parse s _); [discriminate|]. intros [= <-]. by eexists.
Qed.

Lemma path_join_truthy dir name : truthy (Some (path_join dir name)) = true.
Proof. unfold path_join, truthy. by destruct dir. Qed.

Lemma extractFrames_Return_count e url w x w' :
  extractFrames e url None w = (Return x, w') →
  (1 ≤ length (frames x) ≤ 5)%nat ∧
  audioPath x = audioPath_of (os_tmpdir e) (Date_now e).
Proof.
  intros Hrun.
  apply extractFrames_Return_inv in Hrun
    as (w2 & md & w3 & w4 & _ & _ & Hloop & Hne & Hap & _ & _).
  split; [|done].
  destruct (frameLoop_frames e (os_tmpdir e) (Date_now e)
              (videoPath_of (os_tmpdir e) (Date_now e))
              (chooseTimestamps (duration_or_30 md) None) [] w3)
    as (new & Hfr & Hsub & _).
  rewrite Hloop in Hfr. simpl in Hfr. injection Hfr as Hfr. rewrite Hfr in *.
  split; [destruct new; [done|simpl; lia]|].
  apply sublist_length in Hsub. rewrite length_map in Hsub.
  etrans; [exact Hsub|]. simpl. unfold defaultTimestamps, sampleWith, JS.slice0.
  rewrite length_take. lia.
Qed.

(** The [try] block, by the outcome of the pipeline. *)
Lemma analyze_video_url_try_run e s url st :
  truthy (GROQ_API_KEY s) = true →
  analyze_video_url_try e s url st =
    match extractFrames e url None (world st) with
    | (Throw err, w1) => (Rejected (PipelineError err), mkSite w1 (calls st))
    | (Return x, w1) =>
        let heard := transcribeAudio s (audioPath x) (mkSite w1 (calls st)) in
        let transcript := transcript_after heard.1 in
        let seen := analyzeVideoFrames s (frames x) ("Analysis of: " +:+ url)
                      (default "" transcript) heard.2 in
        (match seen.1 with
         | Resolved analysis =>
             Resolved (mkResponse 200
                         (AnalysisJson analysis transcript (length (frames x))
                            (truthy transcript)))
         | Rejected error => Rejected error
         end, seen.2)
    end.
Proof.
  intros Hkey. unfold analyze_video_url_try. rewrite Async_bind_run. unfold lift at 1.
  destruct (extractFrames e url None (world st)) as [[x|err] w1] eqn:Hrun; [|done].
  destruct (extractFrames_Return_count e url (world st) x w1 Hrun) as [[Hlen _] Hap].
  rewrite bool_decide_false by lia. rewrite Async_bind_run.
  cbv [mret Async_ret] . cbv beta iota.
  rewrite Hap. unfold audioPath_of at 1. rewrite path_join_truthy.
  rewrite Async_bind_run. unfold Async_try.
  destruct (transcribeAudio s _ _) as [[t|error] st2]; cbv zeta; cbn [fst snd transcript_after];
    rewrite Async_bind_run;
    by destruct (analyzeVideoFrames s _ _ _ st2) as [[analysis|error'] st3].
Qed.

(** X18. The responses of [POST /api/analyze-video-url]. A missing or
    empty URL gives 400 and a missing key 503, both before anything else
    happens. Otherwise an error of the pipeline gives 500 with that error
    as details, and neither the speech service nor the chat service has
    been called; after a successful extraction the response is either
    200, reporting between one and five analysed frames and [hasAudio] as
    the truthiness of the transcript, or 500 with a failure of the
    analyzer. The handler's own no-frames error is never the answer. *)
Theorem analyze_video_url_responses e s req st :
  let url := default "" (videoUrl req) in
  let response := (analyze_video_url e s req st).1 in
  let st' := (analyze_video_url e s req st).2 in
  (truthy (videoUrl req) = false →
     response = mkResponse 400 (ErrorJson "Video URL is required" None) ∧ st' = st) ∧
  (truthy (videoUrl req) = true → truthy (GROQ_API_KEY s) = false →
     response = mkResponse 503 (ErrorJson "Groq API not configured" None) ∧ st' = st) ∧
  (truthy (videoUrl req) = true → truthy (GROQ_API_KEY s) = true →
     match (extractFrames e url None (world st)).1 with
     | Throw err =>
         response = mkResponse 500
                      (ErrorJson "Failed to extract DNA from URL" (Some (PipelineError err))) ∧
         calls st' = calls st
     | Return x =>
         (1 ≤ length (frames x) ≤ 5)%nat ∧
         ((∃ analysis transcript,
             response = mkResponse 200
                          (AnalysisJson analysis transcript (length (frames x))
                             (truthy transcript))) ∨
          (∃ inner,
             response = mkResponse 500
                          (ErrorJson "Failed to extract DNA from URL"
                             (Some (VideoAnalysisFailed inner))) ∧
             is_chat_failure inner))
     end).
Proof.
  intros url response st'. subst response st'. unfold analyze_video_url.
  split; [by intros ->|]. split; [by intros -> ->|]. intros -> Hkey. rewrite Hkey.
  cbn [negb]. fold url. rewrite analyze_video_url_try_run by done.
  destruct (extractFrames e url None (world st)) as [[x|err] w1] eqn:Hrun; [|done].
  cbn [fst]. split; [by eapply extractFrames_Return_count|].
  set (heard := transcribeAudio s (audioPath x) (mkSite w1 (calls st))).
  cbv zeta.
  destruct (analyzeVideoFrames_settles s (frames x) ("Analysis of: " +:+ url)
              (default "" (transcript_after heard.1)) heard.2 Hkey) as [_ Herr].
  destruct (analyzeVideoFrames s _ _ _ _) as [[analysis|error] st3]; cbn [fst snd] in *.
  - left. by eexists _, _.
  - right. destruct (Herr error eq_refl) as (inner & -> & Hinner). by exists inner.
Qed.

Lemma analyze_video_url_responses_witness :
  ∃ analysis transcript,
    (analyze_video_url (server every_frame_ok audio_ok)
       (groq (Some "gsk_live") (timeout_then "Buy it now.") (ChatCompletion (Some "{}")))
       audio_request site0).1
    = mkResponse 200 (AnalysisJson analysis transcript 5 (truthy transcript)).
Proof.
  destruct (analyze_video_url_responses (server every_frame_ok audio_ok)
              (groq (Some "gsk_live") (timeout_then "Buy it now.") (ChatCompletion (Some "{}")))
              audio_request site0) as (_ & _ & H).
  specialize (H eq_refl eq_refl). vm_compute in H.
  destruct H as [_ [H|(inner & H & _)]]; [|discriminate H].
  vm_compute. exact H.
Defined.

(** X19. A failed transcription does not fail the request: when the
    extraction returned and the transcriber throws, the analyzer is asked
    with an empty transcript, and if it answers with an object the
    response is 200 with that analysis, an empty transcript, the number of
    extracted frames and [hasAudio] false. *)
Theorem transcription_failure_is_tolerated e s req st x w1 error text object :
  let url := default "" (videoUrl req) in
  truthy (videoUrl req) = true →
  truthy (GROQ_API_KEY s) = true →
  extractFrames e url None (world st) = (Return x, w1) →
  (transcribeAudio s (audioPath x) (mkSite w1 (calls st))).1 = Rejected error →
  completions_create s (frames x) ("Analysis of: " +:+ url) "" = ChatCompletion (Some text) →
  truthy (Some text) = true →
  JSON_parse s text = Some object →
  (analyze_video_url e s req st).1
  = mkResponse 200 (AnalysisJson object (Some "") (length (frames x)) false).
Proof.
  intros url Hurl Hkey Hrun Hheard Hchat Htext Hparse.
  unfold analyze_video_url. rewrite Hurl, Hkey. cbn [negb]. fold url.
  rewrite analyze_video_url_try_run, Hrun by done. cbv zeta.
  rewrite Hheard. cbn [transcript_after default from_option id].
  rewrite analyzeVideoFrames_run, Hchat, Htext by done.
  cbn [default from_option id fst]. by rewrite Hparse.
Qed.

Lemma transcription_failure_is_tolerated_witness :
  (analyze_video_url (server every_frame_ok audio_ok)
     (groq (Some "gsk_live") unauthorized (ChatCompletion (Some "{}")))
     audio_request site0).1
  = mkResponse 200
      (AnalysisJson [] (Some "") (length (demo_frames [0; 1; 2; 5; 9])) false).
Proof.
  apply (transcription_failure_is_tolerated (server every_frame_ok audio_ok)
           (groq (Some "gsk_live") unauthorized (ChatCompletion (Some "{}")))
           audio_request site0
           (mkExtraction (demo_frames [0; 1; 2; 5; 9]) "/tmp/audio_1700000000000.mp3")
           (extractFrames (server every_frame_ok audio_ok) direct_url None w0).2
           (TranscriptionFailed (WhisperFailure "401 Invalid API Key" None)) "{}" []).
  - reflexivity.
  - reflexivity.
  - vm_compute. reflexivity.
  - vm_compute. reflexivity.
  - reflexivity.
  - reflexivity.
  - reflexivity.
Defined.




